(** * autotest: watch directories, debounce changes, run [go test]

    A shallow embedding of [autotest.go] (package main of roastery/autotest)
    and the properties of its watch list, event classifier, settle loop and
    run-status messages.

    Conventions of the embedding:
    - a [time.Duration] and a [time.Time] are [Z] counts of nanoseconds; the
      int64 arithmetic of [round] is written with its wrap-around;
    - a Go [error] is [option string]: [None] is [nil], [Some m] is an error
      whose [Error()] text is [m];
    - [log.Fatal] ends the process, so a call that can reach it returns a
      [Result]: [Ret] for a normal return, [Fatal m] for the process exit
      after logging [m];
    - the operating system (the [fsnotify] watcher and [os.Stat]) is an
      [OS] record of answers handed to the call that consults it. *)

From Stdlib Require Import ZArith List String Ascii Bool Lia.
Import ListNotations.
Local Open Scope string_scope.
Local Open Scope Z_scope.
Local Open Scope list_scope.

(** ** Strings: the library calls the program makes *)

Module Strings.

Definition len (s : string) : nat := String.length s.

(** [strings.HasPrefix(s, prefix)]. *)
Definition HasPrefix (s pre : string) : bool := String.prefix pre s.

(** [s[n:]] for [n <= len s]. *)
Fixpoint drop (n : nat) (s : string) : string :=
  match n, s with
  | O, _ => s
  | S n', String _ s' => drop n' s'
  | S _, EmptyString => EmptyString
  end.

(** [strings.HasSuffix(s, suffix)]:
    [len(s) >= len(suffix) && s[len(s)-len(suffix):] == suffix]. *)
Definition HasSuffix (s suf : string) : bool :=
  (len suf <=? len s)%nat && String.eqb (drop (len s - len suf) s) suf.

Fixpoint rev_acc (s acc : string) : string :=
  match s with
  | EmptyString => acc
  | String c s' => rev_acc s' (String c acc)
  end.

Definition rev (s : string) : string := rev_acc s EmptyString.

End Strings.

(** ** Durations *)

Module Time.

Definition Duration := Z.

Definition Nanosecond : Duration := 1.
Definition Microsecond : Duration := 1000 * Nanosecond.
Definition Millisecond : Duration := 1000 * Microsecond.
Definition Second : Duration := 1000 * Millisecond.

Definition minDuration : Duration := - 2 ^ 63.
Definition maxDuration : Duration := 2 ^ 63 - 1.

(** Two's complement wrap-around of a 64-bit signed integer. *)
Definition wrap64 (z : Z) : Z := (z + 2 ^ 63) mod 2 ^ 64 - 2 ^ 63.

(** [time.Since(t)] at the instant [now]: [now.Sub(t)], which saturates
    at the ends of the [Duration] range. *)
Definition Since (now t : Z) : Duration :=
  let d := now - t in
  if d <? minDuration then minDuration
  else if maxDuration <? d then maxDuration
  else d.

Definition digit (d : Z) : ascii := ascii_of_nat (48 + Z.to_nat d).

(** [fmtInt]: the decimal digits of [v] written in front of [acc]. *)
Fixpoint fmtInt_loop (fuel : nat) (v : Z) (acc : string) : string :=
  match fuel with
  | O => acc
  | S fuel' =>
      if v <=? 0 then acc
      else fmtInt_loop fuel' (v / 10) (String (digit (v mod 10)) acc)
  end.

Definition fmtInt (v : Z) (acc : string) : string :=
  if v =? 0 then String "0" acc else fmtInt_loop 20 v acc.

(** [fmtFrac]: the last [prec] digits of [v] as a fraction in front of
    [acc], trailing zeros and a bare decimal point left out; also returns
    [v / 10^prec]. *)
Fixpoint fmtFrac_loop (prec : nat) (v : Z) (print : bool) (acc : string)
  : string * Z * bool :=
  match prec with
  | O => (acc, v, print)
  | S prec' =>
      let d := v mod 10 in
      let print' := print || negb (d =? 0) in
      let acc' := if print' then String (digit d) acc else acc in
      fmtFrac_loop prec' (v / 10) print' acc'
  end.

Definition fmtFrac (v : Z) (prec : nat) (acc : string) : string * Z :=
  let '(acc', v', print) := fmtFrac_loop prec v false acc in
  (if print then String "." acc' else acc', v').

(** The two bytes of the UTF-8 micro sign. *)
Definition micro : string :=
  String (ascii_of_nat 194) (String (ascii_of_nat 181) EmptyString).

(** [Duration.String] of Go's [time] package: the text [%s] prints for a
    duration, such as [72h3m0.5s]; durations under a second use a smaller
    unit.  The buffer is filled from its end, so each step writes in front
    of the text so far. *)
Definition String_ (d : Duration) : string :=
  let neg := d <? 0 in
  let u := if neg then (- d) mod 2 ^ 64 else d in
  let body :=
    if u <? Second then
      if u =? 0 then "0s"
      else if u <? Microsecond then fmtInt u "ns"
      else if u <? Millisecond then
        let '(s, u') := fmtFrac u 3 (micro ++ "s")%string in fmtInt u' s
      else
        let '(s, u') := fmtFrac u 6 "ms" in fmtInt u' s
    else
      let '(s, u1) := fmtFrac u 9 "s" in
      let s1 := fmtInt (u1 mod 60) s in
      let u2 := u1 / 60 in
      if 0 <? u2 then
        let s2 := fmtInt (u2 mod 60) (String "m" s1) in
        let u3 := u2 / 60 in
        if 0 <? u3 then fmtInt u3 (String "h" s2) else s2
      else s1
  in
  if neg then String "-" body else body.

End Time.

(** [round]: Go's [time] package of the day had no [Duration.Round], so
    the program brings its own.  [/] and [%] on int64 truncate towards
    zero ([Z.quot], [Z.rem]); the program calls it with [time.Second] only
    (an [interval] of zero would be a division by zero at run time). *)
Definition round (duration interval : Time.Duration) : Time.Duration :=
  let t := Time.wrap64 (duration + Z.quot interval 2) in
  Time.wrap64 (t - Z.rem t interval).


(** ** Paths and patterns *)

Module Filepath.

Definition isSep (c : ascii) : bool := Ascii.eqb c "/".

Fixpoint dropSeps (s : string) : string :=
  match s with
  | String c s' => if isSep c then dropSeps s' else s
  | EmptyString => EmptyString
  end.

Fixpoint untilSep (s : string) : string :=
  match s with
  | String c s' => if isSep c then EmptyString else String c (untilSep s')
  | EmptyString => EmptyString
  end.

(** [filepath.Base] on a Unix path: the last element, trailing slashes
    dropped first; ["."] for the empty path and ["/"] for one made of
    slashes only.  The scan from the end of the path is a scan from the
    front of the reversed one. *)
Definition Base (path : string) : string :=
  if String.eqb path "" then "."
  else
    let last := Strings.rev (untilSep (dropSeps (Strings.rev path))) in
    if String.eqb last "" then "/" else last.

End Filepath.

(** A compiled [*regexp.Regexp] is the predicate [MatchString] computes. *)
Definition Regexp := string -> bool.

Definition MatchString (re : Regexp) (s : string) : bool := re s.

(** Looks, in a reversed text, for a dot that comes before any newline. *)
Fixpoint dotOnLine (r : string) : bool :=
  match r with
  | EmptyString => false
  | String c r' =>
      if Ascii.eqb c "." then true
      else if Ascii.eqb c (ascii_of_nat 10) then false
      else dotOnLine r'
  end.

(** The pattern [\..*\.swp$] of [newWatcher]: a dot, any characters other
    than a newline, and [.swp] at the end of the text. *)
Definition swpPattern : Regexp := fun s =>
  Strings.HasSuffix s ".swp"
  && dotOnLine (Strings.rev (String.substring 0 (Strings.len s - 4) s)).

(** ** The collaborators: fsnotify and the file system *)

Definition error := option string.

Module Fsnotify.

(** [Op] is a bit set: [Create Op = 1 << iota], then [Write], [Remove],
    [Rename], [Chmod]. *)
Definition Create : Z := 1.
Definition Write : Z := 2.
Definition Remove : Z := 4.
Definition Rename : Z := 8.
Definition Chmod : Z := 16.

Record Event := { Name : string; Op : Z }.

(** [event.Op&bit != 0]. *)
Definition has (op bit : Z) : bool := negb (Z.land op bit =? 0).

End Fsnotify.

(** What [os.Stat] answers: a [FileInfo], of which the program reads
    [IsDir] only, or an error. *)
Inductive StatResult :=
| StatInfo (isDir : bool)
| StatError (msg : string).

(** The answers of the operating system to one handler call: [os.Stat],
    and the watcher's [fs.Add] and [fs.Remove]. *)
Record OS := {
  os_Stat : string -> StatResult;
  fs_Add : string -> error;
  fs_Remove : string -> error
}.

(** A computation that may end the process through [log.Fatal]. *)
Inductive Result (A : Type) :=
| Ret (a : A)
| Fatal (msg : string).

Arguments Ret {A} a.
Arguments Fatal {A} msg.

(** ** The session object *)

(** Values for [lastState]. *)
Inductive RunState := starting | working | failing.

Definition RunState_eqb (x y : RunState) : bool :=
  match x, y with
  | starting, starting | working, working | failing, failing => true
  | _, _ => false
  end.

Record autotest := {
  SettleTime : Time.Duration;
  IgnoreDirs : list string;
  IgnoreFiles : list Regexp;
  TestFlags : list string;
  debug : bool;
  gosrc : string;
  paths : list string;
  timeSuccess : Z;
  timeFailure : Z;
  lastState : RunState
}.

Definition set_paths (a : autotest) (ps : list string) : autotest :=
  {| SettleTime := SettleTime a; IgnoreDirs := IgnoreDirs a;
     IgnoreFiles := IgnoreFiles a; TestFlags := TestFlags a;
     debug := debug a; gosrc := gosrc a; paths := ps;
     timeSuccess := timeSuccess a; timeFailure := timeFailure a;
     lastState := lastState a |}.

Definition set_status (a : autotest) (ts tf : Z) (st : RunState) : autotest :=
  {| SettleTime := SettleTime a; IgnoreDirs := IgnoreDirs a;
     IgnoreFiles := IgnoreFiles a; TestFlags := TestFlags a;
     debug := debug a; gosrc := gosrc a; paths := paths a;
     timeSuccess := ts; timeFailure := tf; lastState := st |}.

(** [newWatcher], for a given [$GOPATH/src]. *)
Definition newWatcher (gosrc : string) : autotest :=
  {| SettleTime := 2 * Time.Second;
     IgnoreDirs := [".git"];
     IgnoreFiles := [swpPattern];
     TestFlags := [];
     debug := false;
     gosrc := gosrc;
     paths := [];
     timeSuccess := 0;
     timeFailure := 0;
     lastState := starting |}.

(** ** The watch list *)

(** [Add]: a failed registration goes to [log.Fatal]; otherwise the path
    is appended and the (nil) error returned.  The two [log.Println] lines
    change no state. *)
Definition Add (os : OS) (a : autotest) (path : string)
  : Result (autotest * error) :=
  let err := fs_Add os path in
  match err with
  | Some e => Fatal e
  | None => Ret (set_paths a (paths a ++ [path]), err)
  end.

(** The [range] loop of [Remove]: the index of the first entry equal to
    [path]. *)
Fixpoint indexOf (path : string) (l : list string) (i : nat) : option nat :=
  match l with
  | [] => None
  | val :: l' => if String.eqb val path then Some i else indexOf path l' (S i)
  end.

(** [copy(dst[i:], src)]: overwrites [dst] from index [i] with as much of
    [src] as fits. *)
Fixpoint copyAt {A : Type} (dst : list A) (i : nat) (src : list A) : list A :=
  match dst with
  | [] => []
  | x :: dst' =>
      match i with
      | S i' => x :: copyAt dst' i' src
      | O =>
          match src with
          | [] => dst
          | y :: src' => y :: copyAt dst' O src'
          end
      end
  end.

(** "delete entry at position i": shift the tail one place left, then cut
    the last place off. *)
Definition deleteAt (ps : list string) (i : nat) : list string :=
  firstn (List.length ps - 1) (copyAt ps i (skipn (i + 1) ps))%nat.

(** [Remove]: the list is updated first, then the watcher is asked and
    its answer returned. *)
Definition Remove (os : OS) (a : autotest) (path : string) : autotest * error :=
  let a' :=
    match indexOf path (paths a) 0 with
    | Some i => set_paths a (deleteAt (paths a) i)
    | None => a
    end in
  (a', fs_Remove os path).

(** ** The event classifier *)

(** Where the body of [handleEvent] stands after one of its three [if]
    blocks: it goes on with the session and the local [modified], it has
    executed a [return], or the process is gone. *)
Inductive Flow :=
| Next (a : autotest) (modified : bool)
| Return (a : autotest) (modified : bool) (err : error)
| Die (msg : string).

Definition andThen (f : Flow) (k : autotest -> bool -> Flow) : Flow :=
  match f with
  | Next a modified => k a modified
  | _ => f
  end.

Definition noSuchFile : string := "no such file or directory".
Definition notWatched : string := "can't remove non-existent inotify watch".

(** The block under [event.Op&fsnotify.Create != 0]. *)
Definition onCreate (os : OS) (a : autotest) (filename : string)
  (modified : bool) : Flow :=
  match os_Stat os filename with
  | StatError e =>
      if Strings.HasSuffix e noSuchFile then Return a false None
      else Return a false (Some e)
  | StatInfo isDir =>
      if isDir then
        match Add os a filename with
        | Fatal m => Die m
        | Ret (a', Some e) => Return a' false (Some e)
        | Ret (a', None) => Next a' modified
        end
      else Next a true
  end.

(** The block under [event.Op&fsnotify.Remove != 0]. *)
Definition onRemove (os : OS) (a : autotest) (filename : string)
  (modified : bool) : Flow :=
  match Remove os a filename with
  | (a', Some e) =>
      if negb (Strings.HasPrefix e notWatched) then Return a' false (Some e)
      else Next a' true
  | (a', None) => Next a' true
  end.

(** The loop over [IgnoreFiles], with its [break]. *)
Fixpoint skipFile (res : list Regexp) (base : string) : bool :=
  match res with
  | [] => false
  | re :: res' => if MatchString re base then true else skipFile res' base
  end.

(** The block under [event.Op&fsnotify.Write != 0]. *)
Definition onWrite (a : autotest) (filename : string) (modified : bool)
  : Flow :=
  let base := Filepath.Base filename in
  if skipFile (IgnoreFiles a) base then Next a modified else Next a true.

Definition handleEventFlow (os : OS) (a : autotest) (event : Fsnotify.Event)
  : Flow :=
  let filename := Fsnotify.Name event in
  let op := Fsnotify.Op event in
  andThen (if Fsnotify.has op Fsnotify.Create
           then onCreate os a filename false else Next a false)
    (fun a modified =>
  andThen (if Fsnotify.has op Fsnotify.Remove
           then onRemove os a filename modified else Next a modified)
    (fun a modified =>
  andThen (if Fsnotify.has op Fsnotify.Write
           then onWrite a filename modified else Next a modified)
    (fun a modified => Return a modified None))).

(** [handleEvent]: the session afterwards and the pair [(bool, error)] it
    returns, unless the process was ended on the way. *)
Definition handleEvent (os : OS) (a : autotest) (event : Fsnotify.Event)
  : Result (autotest * (bool * error)) :=
  match handleEventFlow os a event with
  | Next a' modified => Ret (a', (modified, None))
  | Return a' modified err => Ret (a', (modified, err))
  | Die m => Fatal m
  end.

(** ** Run status *)

Definition esc : string := String (ascii_of_nat 27) EmptyString.
Definition red (msg : string) : string :=
  (esc ++ "[31m" ++ msg ++ esc ++ "[0m")%string.
Definition green (msg : string) : string :=
  (esc ++ "[32m" ++ msg ++ esc ++ "[0m")%string.

(** The local [msg] of the failure branch of [RunTests]. *)
Definition failureMsg (a : autotest) (e : string) (now : Z) : string :=
  let msg := ("error: " ++ e)%string in
  if RunState_eqb (lastState a) working then
    (msg ++ " (" ++ Time.String_ (round (Time.Since now (timeSuccess a)) Time.Second)
         ++ " success)")%string
  else msg.

(** The local [msg] of the success branch of [RunTests]. *)
Definition successMsg (a : autotest) (now : Z) : string :=
  if RunState_eqb (lastState a) failing then
    ("success after "
       ++ Time.String_ (round (Time.Since now (timeFailure a)) Time.Second)
       ++ " failures")%string
  else "".

(** [RunTests], given what [handleModifications] returned and the instant
    [now] the clock shows during the call: the session afterwards and the
    lines sent to the log. *)
Definition RunTests (a : autotest) (err : error) (now : Z)
  : autotest * list string :=
  match err with
  | Some e =>
      let tf := if negb (RunState_eqb (lastState a) failing)
                then now else timeFailure a in
      (set_status a (timeSuccess a) tf failing, [red (failureMsg a e now)])
  | None =>
      let ts := if negb (RunState_eqb (lastState a) working)
                then now else timeSuccess a in
      let msg := successMsg a now in
      (set_status a ts (timeFailure a) working,
       if negb (Strings.len msg =? 0)%nat then [green msg] else [])
  end.

(** ** The monitoring loop *)

(** What a channel delivers to the [select]: a value on [a.done], on
    [a.fs.Errors], or on [a.fs.Events] (with the answers the operating
    system gives while the event is handled). *)
Inductive Input :=
| Stop
| SourceError (msg : string)
| Notification (event : Fsnotify.Event) (os : OS).

(** An input and the instant it becomes ready. *)
Record Timed := { at_ : Z; what : Input }.

(** The rest of the world of the loop: what [go test] returns when it is run
    at an instant, and which case [select] picks when an input and the timer
    are ready at the same instant ([true] for the input). *)
Record Env := {
  cmdRun : autotest -> Z -> error;
  selectInput : Z -> bool
}.

(** What the loop does that can be seen from outside. *)
Inductive Action :=
| Triggered (t : Z)
| LoggedError (t : Z) (msg : string)
| Finished (t : Z)
| Exited (t : Z) (msg : string).

(** [handleModifications] builds the arguments of [go test] from the
    session and runs it. *)
Definition handleModifications (env : Env) (a : autotest) (now : Z) : error :=
  cmdRun env a now.

(** Whether the [select] entered at [now] receives the input [i] rather
    than the timer started at its entry. *)
Definition takes (env : Env) (a : autotest) (now : Z) (i : Timed) : bool :=
  (at_ i <? now + SettleTime a)
  || ((at_ i =? now + SettleTime a) && selectInput env (at_ i)).

(** [monitorChanges], for [fuel] iterations of its [for] loop.  [now] is
    the instant the [select] is entered, which is when [time.After] starts
    a fresh timer; the handlers and the test run take no time on this
    clock.  [inputs] are the values the channels will deliver, in order. *)
Fixpoint monitorChanges (fuel : nat) (env : Env) (a : autotest) (now : Z)
  (modified : bool) (inputs : list Timed) : list Action :=
  match fuel with
  | O => []
  | S fuel' =>
      let deadline := now + SettleTime a in
      let timer :=
        if modified then
          Triggered deadline ::
            monitorChanges fuel' env
              (fst (RunTests a (handleModifications env a deadline) deadline))
              deadline false inputs
        else monitorChanges fuel' env a deadline modified inputs in
      match inputs with
      | [] => timer
      | i :: rest =>
          if takes env a now i then
            let t := Z.max now (at_ i) in
            match what i with
            | Stop => [Finished t]
            | SourceError e =>
                LoggedError t e :: monitorChanges fuel' env a t modified rest
            | Notification event os =>
                match handleEvent os a event with
                | Fatal m => [Exited t m]
                | Ret (a', (_, Some e)) =>
                    LoggedError t e ::
                      monitorChanges fuel' env a' t modified rest
                | Ret (a', (mod_, None)) =>
                    monitorChanges fuel' env a' t
                      (if mod_ then true else modified) rest
                end
            end
          else timer
      end
  end.

(** The instants at which the test command was launched. *)
Fixpoint triggers (tr : list Action) : list Z :=
  match tr with
  | [] => []
  | Triggered t :: tr' => t :: triggers tr'
  | _ :: tr' => triggers tr'
  end.

(** ** Bursts of inputs *)

(** The session and the pending flag after the loop has received all of
    [l], when none of them stops the loop or ends the process. *)
Fixpoint replay (a : autotest) (modified : bool) (l : list Timed)
  : option (autotest * bool) :=
  match l with
  | [] => Some (a, modified)
  | i :: rest =>
      match what i with
      | Stop => None
      | SourceError _ => replay a modified rest
      | Notification event os =>
          match handleEvent os a event with
          | Fatal _ => None
          | Ret (a', (_, Some _)) => replay a' modified rest
          | Ret (a', (mod_, None)) =>
              replay a' (if mod_ then true else modified) rest
          end
      end
  end.

(** Every input of [l] is received by the [select] entered when the one
    before it was handled (the first by the one entered at [now]). *)
Fixpoint burst (env : Env) (a : autotest) (now : Z) (l : list Timed) : Prop :=
  match l with
  | [] => True
  | i :: rest =>
      now <= at_ i /\ takes env a now i = true /\ burst env a (at_ i) rest
  end.

(** Every input of [l] arrives strictly within [s] of the one before it
    (the first of [prev]). *)
Fixpoint within (s : Z) (prev : Z) (l : list Timed) : Prop :=
  match l with
  | [] => True
  | i :: rest => prev <= at_ i < prev + s /\ within s (at_ i) rest
  end.

(** The arrival of the last input of [l], or [now] when there is none. *)
Fixpoint lastAt (now : Z) (l : list Timed) : Z :=
  match l with
  | [] => now
  | i :: rest => lastAt (at_ i) rest
  end.

(** A written event on a basename that no pattern of [IgnoreFiles]
    matches. *)
Definition qualifyingWrite (a : autotest) (i : Timed) : Prop :=
  exists ev os,
    what i = Notification ev os /\
    Fsnotify.has (Fsnotify.Op ev) Fsnotify.Create = false /\
    Fsnotify.has (Fsnotify.Op ev) Fsnotify.Remove = false /\
    Fsnotify.has (Fsnotify.Op ev) Fsnotify.Write = true /\
    skipFile (IgnoreFiles a) (Filepath.Base (Fsnotify.Name ev)) = false.

(** Inputs that are no modification: source errors and events for which
    the classifier returns an error or a false flag, none of which stops the
    loop.  Replayed from an idle loop they leave it idle. *)
Definition nonModifications (a : autotest) (l : list Timed) : Prop :=
  exists a', replay a false l = Some (a', false).

(** ** Predicates and scenarios of the properties *)

(** A watcher on which every registration succeeds. *)
Definition osFine : OS :=
  {| os_Stat := fun _ => StatInfo true;
     fs_Add := fun _ => None;
     fs_Remove := fun _ => None |}.

(** A session whose last run failed at instant 0. *)
Definition failingSinceZero : autotest :=
  set_status (newWatcher "/go/src") 0 0 failing.

(** [fs.Remove] succeeded, or failed the way the classifier lets pass. *)
Definition removalTolerated (os : OS) (filename : string) : Prop :=
  fs_Remove os filename = None \/
  exists e, fs_Remove os filename = Some e /\
            Strings.HasPrefix e notWatched = true.

(** A session that tracks the same directory twice. *)
Definition tracksTwice : autotest :=
  set_paths (newWatcher "/go/src") ["/go/src/d"; "/go/src/d"].

(** The flag each kind bit contributes when the classifier reaches it. *)
Definition createdFlag (os : OS) (filename : string) : bool :=
  match os_Stat os filename with
  | StatInfo false => true
  | _ => false
  end.

Definition writtenFlag (a : autotest) (filename : string) : bool :=
  negb (skipFile (IgnoreFiles a) (Filepath.Base filename)).

(** No block of the classifier executes a [return] or ends the process:
    a created path stats, as a file or as a directory that registers, and a
    removal succeeds or is tolerated. *)
Definition evaluatesAllBits (os : OS) (ev : Fsnotify.Event) : Prop :=
  (Fsnotify.has (Fsnotify.Op ev) Fsnotify.Create = true ->
   exists d, os_Stat os (Fsnotify.Name ev) = StatInfo d /\
             (d = true -> fs_Add os (Fsnotify.Name ev) = None)) /\
  (Fsnotify.has (Fsnotify.Op ev) Fsnotify.Remove = true ->
   removalTolerated os (Fsnotify.Name ev)).

(** A watcher that has lost the path: the stat fails with ENOENT. *)
Definition osGone : OS :=
  {| os_Stat := fun p => StatError ("stat " ++ p ++ ": no such file or directory")%string;
     fs_Add := fun _ => None;
     fs_Remove := fun _ => None |}.

Definition tracksOne : autotest :=
  set_paths (newWatcher "/go/src") ["/go/src/d"].

(** [go test] always passes; a tie goes to the input. *)
Definition envGreen : Env :=
  {| cmdRun := fun _ _ => None; selectInput := fun _ => true |}.

Definition writeOf (t : Z) (name : string) : Timed :=
  {| at_ := t;
     what := Notification {| Fsnotify.Name := name;
                             Fsnotify.Op := Fsnotify.Write |} osFine |}.

(** One write of a source file at 1s, then the editor's swap file written
    at 2s, 3.5s and 5s. *)
Definition swapChurn : list Timed :=
  [ writeOf 1000000000 "/go/src/pkg/main.go";
    writeOf 2000000000 "/go/src/pkg/.main.go.swp";
    writeOf 3500000000 "/go/src/pkg/.main.go.swp";
    writeOf 5000000000 "/go/src/pkg/.main.go.swp" ].

(** A watcher that has run out of inotify watches. *)
Definition osFull : OS :=
  {| os_Stat := fun _ => StatInfo true;
     fs_Add := fun _ => Some "no space left on device";
     fs_Remove := fun _ => None |}.

(** ** Successive runs *)

(** [RunTests] called once per entry of [runs], each with what
    [handleModifications] returned and the instant of the call: the session
    after the last call and all the lines logged. *)
Fixpoint runAll (a : autotest) (runs : list (error * Z))
  : autotest * list string :=
  match runs with
  | [] => (a, [])
  | (err, now) :: rest =>
      let '(a1, l1) := RunTests a err now in
      let '(a2, l2) := runAll a1 rest in
      (a2, l1 ++ l2)
  end.

(** Runs that fail with the given error texts, and runs that pass. *)
Definition failed (es : list (string * Z)) : list (error * Z) :=
  map (fun et => (Some (fst et), snd et)) es.

Definition passed (ts : list Z) : list (error * Z) :=
  map (fun t => (None, t)) ts.

(** ** What a handler may change *)

(** The session [a'] is [a] with another tracked list, at most [dn]
    entries shorter and at most [up] entries longer. *)
Definition framed (a a' : autotest) (dn up : nat) : Prop :=
  a' = set_paths a (paths a') /\
  (List.length (paths a) <= List.length (paths a') + dn)%nat /\
  (List.length (paths a') <= List.length (paths a) + up)%nat.

(** [framed] at every way out of a block of the classifier; a [return]
    that carries an error carries a false flag. *)
Definition flowOK (a : autotest) (dn up : nat) (f : Flow) : Prop :=
  match f with
  | Next a' _ => framed a a' dn up
  | Return a' m e => framed a a' dn up /\ (e <> None -> m = false)
  | Die _ => True
  end.

(** ** Launch times *)

(** The instants [ts] are in order, the first at least [s] after [lo]
    and each at least [s] after the one before it. *)
Fixpoint spacedFrom (s lo : Z) (ts : list Z) : Prop :=
  match ts with
  | [] => True
  | t :: ts' => lo + s <= t /\ spacedFrom s t ts'
  end.

(** How many of the inputs are file system events. *)
Fixpoint notifications (l : list Timed) : nat :=
  match l with
  | [] => O
  | i :: rest =>
      match what i with
      | Notification _ _ => S (notifications rest)
      | _ => notifications rest
      end
  end.

(** ** Walking a directory tree *)

(** What [os.Lstat] and the directory listing find at a path: a file
    (anything that is no directory), a directory with its entries by name,
    in the lexical order in which [filepath.Walk] visits them, or an entry
    whose [Lstat] fails. *)
#[local] Set Warnings "-register-all".

Inductive Node :=
| File
| Dir (entries : list (string * Node))
| Broken (err : string).

(** Induction on a tree, with the property known of every entry of a
    directory. *)
Definition Node_ind2 (P : Node -> Prop)
  (HF : P File)
  (HD : forall es, Forall (fun ne => P (snd ne)) es -> P (Dir es))
  (HB : forall e, P (Broken e)) : forall n, P n :=
  fix go (n : Node) : P n :=
    match n with
    | File => HF
    | Dir es =>
        HD es ((fix all (l : list (string * Node))
                 : Forall (fun ne => P (snd ne)) l :=
                  match l with
                  | [] => Forall_nil _
                  | ne :: l' => Forall_cons ne (go (snd ne)) (all l')
                  end) es)
    | Broken e => HB e
    end.

(** The part of an [os.FileInfo] the program reads. *)
Record FileInfo := { info_Name : string; info_IsDir : bool }.

(** What a [WalkFunc] returns besides [nil]: the sentinel
    [filepath.SkipDir], which [Walk] compares by identity, or an error. *)
Inductive WalkError :=
| SkipDir
| OtherError (msg : string).

(** [filepath.Join(dir, name)] for a directory path that needs no
    cleaning and a single name: the two with one separator between them. *)
Definition Join (dir name : string) : string :=
  if String.eqb dir "" then name
  else if Strings.HasSuffix dir "/" then (dir ++ name)%string
  else (dir ++ "/" ++ name)%string.

(** Whether the loop over the names of a directory returns the error
    that came back for an entry: [SkipDir] is passed over for a directory
    and for an entry whose [Lstat] failed, not for a file. *)
Definition stops (child : Node) (e : WalkError) : bool :=
  match child, e with
  | File, _ => true
  | _, SkipDir => false
  | _, OtherError _ => true
  end.

Section Walk.

Variable S : Type.
Variable fn : S -> string -> option FileInfo -> option WalkError
              -> Result (S * option WalkError).

(** [walk] of [path/filepath], with the state the [WalkFunc] closes over
    passed along; [name] is what [info.Name()] returns for [path].  On an
    entry whose [Lstat] failed the function is called with the error and a
    nil [info].  Listing a directory does not fail in this model, so the
    function sees a directory with a nil error before its entries are
    walked. *)
Fixpoint walk (s : S) (path name : string) (n : Node) {struct n}
  : Result (S * option WalkError) :=
  match n with
  | File => fn s path (Some {| info_Name := name; info_IsDir := false |}) None
  | Broken e => fn s path None (Some (OtherError e))
  | Dir entries =>
      match fn s path (Some {| info_Name := name; info_IsDir := true |}) None
      with
      | Fatal m => Fatal m
      | Ret (s1, Some e1) => Ret (s1, Some e1)
      | Ret (s1, None) =>
          (fix each (s : S) (es : list (string * Node)) {struct es}
             : Result (S * option WalkError) :=
             match es with
             | [] => Ret (s, None)
             | (nm, child) :: es' =>
                 match walk s (Join path nm) nm child with
                 | Fatal m => Fatal m
                 | Ret (s2, None) => each s2 es'
                 | Ret (s2, Some e) =>
                     if stops child e then Ret (s2, Some e) else each s2 es'
                 end
             end) s1 entries
      end
  end.

(** The loop of [walk] over the names of the directory [path]. *)
Fixpoint walkEntries (s : S) (path : string) (es : list (string * Node))
  : Result (S * option WalkError) :=
  match es with
  | [] => Ret (s, None)
  | (nm, child) :: es' =>
      match walk s (Join path nm) nm child with
      | Fatal m => Fatal m
      | Ret (s2, None) => walkEntries s2 path es'
      | Ret (s2, Some e) =>
          if stops child e then Ret (s2, Some e) else walkEntries s2 path es'
      end
  end.

(** [filepath.Walk]: [SkipDir] from the root is no error. *)
Definition Walk (s : S) (root : string) (tree : Node)
  : Result (S * option WalkError) :=
  match walk s root (Filepath.Base root) tree with
  | Ret (s', Some SkipDir) => Ret (s', None)
  | r => r
  end.

End Walk.

Arguments walk {S} fn s path name n.
Arguments walkEntries {S} fn s path es.
Arguments Walk {S} fn s root tree.

(** [_, ignore := a.IgnoreDirs[name]]. *)
Definition ignoredDir (a : autotest) (name : string) : bool :=
  existsb (String.eqb name) (IgnoreDirs a).

(** The function literal [AddRecursive] hands to [filepath.Walk].  With a
    nil [info] and no error (which [Walk] never passes) [info.Name()] would
    panic. *)
Definition visit (os : OS) (a : autotest) (subpath : string)
  (info : option FileInfo) (err : option WalkError)
  : Result (autotest * option WalkError) :=
  match err with
  | Some e => Ret (a, Some e)
  | None =>
      match info with
      | None => Fatal "invalid memory address or nil pointer dereference"
      | Some info =>
          if ignoredDir a (info_Name info) then Ret (a, Some SkipDir)
          else if info_IsDir info then
            match Add os a subpath with
            | Fatal m => Fatal m
            | Ret (a', Some e) => Ret (a', Some (OtherError e))
            | Ret (a', None) => Ret (a', None)
            end
          else Ret (a, None)
      end
  end.

(** [AddRecursive] over the tree found at [path]. *)
Definition AddRecursive (os : OS) (a : autotest) (path : string)
  (tree : Node) : Result (autotest * error) :=
  match Walk (visit os) a path tree with
  | Fatal m => Fatal m
  | Ret (a', None) => Ret (a', None)
  | Ret (a', Some SkipDir) => Ret (a', Some "skip this directory")
  | Ret (a', Some (OtherError e)) => Ret (a', Some e)
  end.

(** The directories of a tree, each before its entries, in the order of
    the walk. *)
Fixpoint allDirs (path : string) (n : Node) {struct n} : list string :=
  match n with
  | Dir es =>
      path ::
        (fix each (es : list (string * Node)) : list string :=
           match es with
           | [] => []
           | (nm, child) :: es' => allDirs (Join path nm) child ++ each es'
           end) es
  | _ => []
  end.

Fixpoint allDirsOf (path : string) (es : list (string * Node))
  : list string :=
  match es with
  | [] => []
  | (nm, child) :: es' => allDirs (Join path nm) child ++ allDirsOf path es'
  end.

(** No name in the tree is an ignored one and every [Lstat] succeeds. *)
Fixpoint clean (ign : list string) (name : string) (n : Node) {struct n}
  : bool :=
  negb (existsb (String.eqb name) ign)
  && match n with
     | File => true
     | Broken _ => false
     | Dir es =>
         (fix each (es : list (string * Node)) : bool :=
            match es with
            | [] => true
            | (nm, child) :: es' => clean ign nm child && each es'
            end) es
     end.

Fixpoint cleanAll (ign : list string) (es : list (string * Node)) : bool :=
  match es with
  | [] => true
  | (nm, child) :: es' => clean ign nm child && cleanAll ign es'
  end.

(** The tree with every directory of an ignored name emptied. *)
Fixpoint prune (ign : list string) (name : string) (n : Node) {struct n}
  : Node :=
  match n with
  | Dir es =>
      if existsb (String.eqb name) ign then Dir []
      else
        Dir ((fix each (es : list (string * Node)) : list (string * Node) :=
                match es with
                | [] => []
                | (nm, child) :: es' => (nm, prune ign nm child) :: each es'
                end) es)
  | _ => n
  end.

Fixpoint pruneAll (ign : list string) (es : list (string * Node))
  : list (string * Node) :=
  match es with
  | [] => []
  | (nm, child) :: es' => (nm, prune ign nm child) :: pruneAll ign es'
  end.

(** A small tree: a package with a [.git] directory and two sub-packages. *)
Definition sampleTree : Node :=
  Dir [ (".git", Dir [ ("hooks", Dir []); ("objects", Broken "permission denied") ]);
        ("README.md", File);
        ("cmd", Dir [ ("main.go", File) ]);
        ("lib", Dir [ ("util", Dir []) ]) ].

(** ** The arguments of [go test] *)

(** [getPackageName], given [filepath.Rel]: the path relative to
    [$GOPATH/src], or the empty string when [Rel] fails. *)
Definition getPackageName (Rel : string -> string -> string * error)
  (a : autotest) (path : string) : string :=
  match Rel (gosrc a) path with
  | (pkg, None) => pkg
  | (_, Some _) => ""
  end.

(** [args[i] = v] on a slice long enough. *)
Fixpoint setAt (args : list string) (i : nat) (v : string) : list string :=
  match args, i with
  | [], _ => []
  | _ :: rest, O => v :: rest
  | x :: rest, S i' => x :: setAt rest i' v
  end.

(** What [handleModifications] builds before it runs the command: the
    argument slice, made with room for the flags, filled by index and by
    [copy], extended by [append] for each tracked path that has a package
    name; and the count [npkg] it logs. *)
Definition goTestArgs (Rel : string -> string -> string * error)
  (a : autotest) : list string * nat :=
  let args := repeat "" (1 + List.length (TestFlags a)) in
  let args := setAt args 0 "test" in
  let args := copyAt args 1 (TestFlags a) in
  fold_left
    (fun (st : list string * nat) (path : string) =>
       let pkg := getPackageName Rel a path in
       if negb (String.eqb pkg "") then (fst st ++ [pkg], S (snd st)) else st)
    (paths a) (args, O).

(** ** Debouncing, burst by burst *)

(** The inputs come in bursts: within a burst each input is received by
    the [select] entered when the one before it was handled, and the first
    input of the next burst is not (the timer of that [select] runs out
    first). *)
Fixpoint bursty (env : Env) (a : autotest) (bursts : list (list Timed))
  : Prop :=
  match bursts with
  | [] => True
  | b :: bs =>
      match b with
      | [] => False
      | i :: rest =>
          burst env a (at_ i) rest /\
          match bs with
          | (i' :: _) :: _ => takes env a (lastAt (at_ i) rest) i' = false
          | _ => True
          end /\
          bursty env a bs
      end
  end.

(** The launches one expects of a debouncer: for each burst in which the
    classifier flags a modification, one launch a settle time after the last
    input of the burst.  The session is threaded through the bursts and the
    test runs; [None] when an input stops the loop or ends the process. *)
Fixpoint schedule (env : Env) (a : autotest) (bursts : list (list Timed))
  : option (list Z) :=
  match bursts with
  | [] => Some []
  | b :: bs =>
      match replay a false b with
      | None => None
      | Some (a1, m1) =>
          let t := lastAt 0 b + SettleTime a in
          if m1 then
            option_map (cons t)
              (schedule env
                 (fst (RunTests a1 (handleModifications env a1 t) t)) bs)
          else schedule env a1 bs
      end
  end.

(** Two edits of a source file, a pause, the churn of a swap file, a
    pause, and a source file removed. *)
Definition threeBursts : list (list Timed) :=
  [ [ writeOf 1000000000 "/go/src/pkg/main.go";
      writeOf 1200000000 "/go/src/pkg/main.go" ];
    [ writeOf 9000000000 "/go/src/pkg/.main.go.swp";
      writeOf 9500000000 "/go/src/pkg/.main.go.swp" ];
    [ {| at_ := 20000000000;
         what := Notification {| Fsnotify.Name := "/go/src/pkg/old.go";
                                 Fsnotify.Op := Fsnotify.Remove |} osFine |} ] ].

(** ** Text without a line break *)

(** No character of [s] is a newline: the text [.*] can match. *)
Fixpoint lineText (s : string) : bool :=
  match s with
  | EmptyString => true
  | String c s' => negb (Ascii.eqb c (ascii_of_nat 10)) && lineText s'
  end.

(** ** Start-up *)

Definition set_TestFlags (a : autotest) (fl : list string) : autotest :=
  {| SettleTime := SettleTime a; IgnoreDirs := IgnoreDirs a;
     IgnoreFiles := IgnoreFiles a; TestFlags := fl;
     debug := debug a; gosrc := gosrc a; paths := paths a;
     timeSuccess := timeSuccess a; timeFailure := timeFailure a;
     lastState := lastState a |}.

Definition set_SettleTime (a : autotest) (d : Time.Duration) : autotest :=
  {| SettleTime := d; IgnoreDirs := IgnoreDirs a;
     IgnoreFiles := IgnoreFiles a; TestFlags := TestFlags a;
     debug := debug a; gosrc := gosrc a; paths := paths a;
     timeSuccess := timeSuccess a; timeFailure := timeFailure a;
     lastState := lastState a |}.

(** What [main] finds around it: the value of [$GOPATH], the error of
    [fsnotify.NewWatcher] if any, what [findPackage] resolves an argument to
    (the empty string when it finds nothing), the tree at a resolved path,
    and the watcher's answers. *)
Record Host := {
  GOPATH : string;
  newWatcherError : error;
  findPackage : string -> string;
  treeAt : string -> Node;
  host_os : OS
}.

(** How the start of [main] ends: it goes on with a value, it prints the
    usage and exits with status 0, [log.Fatal] ends it, or it panics. *)
Inductive Startup (A : Type) :=
| GoesOn (a : A)
| ExitUsage
| ExitFatal (msg : string)
| Panics (msg : string).

Arguments GoesOn {A} a.
Arguments ExitUsage {A}.
Arguments ExitFatal {A} msg.
Arguments Panics {A} msg.

(** [arg == "-h" || arg == "--help"]. *)
Definition isHelp (arg : string) : bool :=
  String.eqb arg "-h" || String.eqb arg "--help".

(** [arg[0] == '-'], for an argument that has a first byte. *)
Definition isFlag (arg : string) : bool :=
  match arg with
  | String c _ => Ascii.eqb c "-"
  | EmptyString => false
  end.

(** The loop "monitor paths" of [main] over the arguments. *)
Fixpoint monitorPaths (h : Host) (w : autotest) (gotOne : bool)
  (args : list string) : Startup (autotest * bool) :=
  match args with
  | [] => GoesOn (w, gotOne)
  | arg :: rest =>
      match arg with
      | EmptyString => Panics "index out of range"
      | String c _ =>
          if Ascii.eqb c "-" then
            monitorPaths h (set_TestFlags w (TestFlags w ++ [arg])) gotOne rest
          else
            let path := findPackage h arg in
            if negb (String.eqb path "") then
              match AddRecursive (host_os h) w path (treeAt h path) with
              | Fatal m => ExitFatal m
              | Ret (_, Some e) => ExitFatal e
              | Ret (w', None) => monitorPaths h w' true rest
              end
            else monitorPaths h w gotOne rest
      end
  end.

(** [main] up to the call of [w.Start()]. *)
Definition mainSetup (h : Host) (args : list string) : Startup autotest :=
  if existsb isHelp args then ExitUsage
  else if String.eqb (GOPATH h) "" then ExitFatal "GOPATH is not set"
  else
    match newWatcherError h with
    | Some e => ExitFatal e
    | None =>
        let w := set_SettleTime (newWatcher (Join (GOPATH h) "src"))
                   (500 * Time.Millisecond) in
        match monitorPaths h w false args with
        | GoesOn (w', gotOne) =>
            if negb gotOne then ExitFatal "no paths to watch" else GoesOn w'
        | ExitUsage => ExitUsage
        | ExitFatal m => ExitFatal m
        | Panics m => Panics m
        end
    end.

(** A host with one package under [/go/src]. *)
Definition sampleHost : Host :=
  {| GOPATH := "/go";
     newWatcherError := None;
     findPackage := fun arg =>
       if String.eqb arg "pkg" then "/go/src/pkg" else "";
     treeAt := fun _ => sampleTree;
     host_os := osFine |}.

(** * Properties *)

(** ** Rounding and the status message *)

Lemma wrap64_id (z : Z) :
  Time.minDuration <= z <= Time.maxDuration -> Time.wrap64 z = z.
Proof.
  unfold Time.wrap64, Time.minDuration, Time.maxDuration. intros H.
  rewrite Z.mod_small; lia.
Qed.

Lemma round_nonneg_eq (d : Z) :
  0 <= d <= Time.maxDuration - 500000000 ->
  round d Time.Second = (d + 500000000) - (d + 500000000) mod 1000000000.
Proof.
  intros H. unfold round.
  change (Z.quot Time.Second 2) with 500000000.
  change Time.Second with 1000000000.
  unfold Time.maxDuration in H.
  rewrite (wrap64_id (d + 500000000))
    by (unfold Time.minDuration, Time.maxDuration; lia).
  rewrite Z.rem_mod_nonneg by lia.
  pose proof (Z.mod_pos_bound (d + 500000000) 1000000000 ltac:(lia)).
  apply wrap64_id. unfold Time.minDuration, Time.maxDuration. lia.
Qed.

(** C9.  [round] takes an elapsed time (a duration that is not negative,
    and small enough for the half second to be added in int64) to the
    nearest whole number of seconds, a half going up: the result [r] is a
    multiple of a second with [r - 0.5s <= d < r + 0.5s].  So 4.6s gives
    5s, 4.4s gives 4s and 4.5s gives 5s. *)
Theorem round_nearest_second_half_up (d : Z) :
  0 <= d <= Time.maxDuration - 500000000 ->
  (exists k, 0 <= k /\ round d Time.Second = k * Time.Second) /\
  round d Time.Second - 500000000 <= d < round d Time.Second + 500000000 /\
  round 4600000000 Time.Second = 5 * Time.Second /\
  round 4400000000 Time.Second = 4 * Time.Second /\
  round 4500000000 Time.Second = 5 * Time.Second.
Proof.
  intros H. rewrite (round_nonneg_eq d H).
  pose proof (Z.mod_pos_bound (d + 500000000) 1000000000 ltac:(lia)) as Hm.
  pose proof (Z.div_mod (d + 500000000) 1000000000 ltac:(lia)) as Hd.
  split; [|split; [lia|repeat split; reflexivity]].
  exists ((d + 500000000) / 1000000000). split.
  - apply Z.div_pos; lia.
  - change Time.Second with 1000000000. lia.
Qed.

Lemma round_nearest_second_half_up_witness :
  round 4500000000 Time.Second - 500000000 <= 4500000000
    < round 4500000000 Time.Second + 500000000.
Proof.
  apply (round_nearest_second_half_up 4500000000).
  unfold Time.maxDuration. lia.
Defined.


(** The printed forms the documentation of [Duration.String] and of
    [Duration.Round] show. *)
Example Duration_String_examples :
  Time.String_ 259380500000000 = "72h3m0.5s" /\
  Time.String_ 1500000000 = "1.5s" /\
  Time.String_ 3600000000000 = "1h0m0s" /\
  Time.String_ 1200000 = "1.2ms" /\
  Time.String_ 999 = "999ns" /\
  Time.String_ (-90000000000) = "-1m30s" /\
  Time.String_ (5 * Time.Second) = "5s".
Proof. repeat split; reflexivity. Qed.

(** C8, as the spec words it, fails: 125 seconds are not printed as
    [125s]. *)
Lemma success_after_125s_counterexample :
  lastState failingSinceZero = failing /\
  timeFailure failingSinceZero = 0 /\
  successMsg failingSinceZero (125 * Time.Second)
    <> "success after 125s failures".
Proof. repeat split. vm_compute. discriminate. Qed.

(** C8, amended.  With the prior status failing since instant 0, a
    success recorded at 125s produces the message
    [success after 2m5s failures]: the rounded duration is printed the way
    [Duration.String] prints it, in hours, minutes and seconds.  This is the
    one line logged, in green, and the status becomes working. *)
Theorem success_after_2m5s (a : autotest) :
  lastState a = failing ->
  timeFailure a = 0 ->
  successMsg a (125 * Time.Second) = "success after 2m5s failures" /\
  snd (RunTests a None (125 * Time.Second))
    = [green "success after 2m5s failures"] /\
  lastState (fst (RunTests a None (125 * Time.Second))) = working.
Proof.
  intros Hs Ht.
  assert (Hm : successMsg a (125 * Time.Second) = "success after 2m5s failures").
  { unfold successMsg. rewrite Hs, Ht. reflexivity. }
  split; [exact Hm|]. split; [|reflexivity].
  change (snd (RunTests a None (125 * Time.Second)))
    with (if negb (Strings.len (successMsg a (125 * Time.Second)) =? 0)%nat
          then [green (successMsg a (125 * Time.Second))] else []).
  rewrite Hm. reflexivity.
Qed.

Lemma success_after_2m5s_witness :
  successMsg failingSinceZero (125 * Time.Second)
    = "success after 2m5s failures".
Proof.
  apply (success_after_2m5s failingSinceZero); reflexivity.
Defined.

(** ** The watch list *)

Lemma copyAt_app {A : Type} (l1 r src : list A) :
  copyAt (l1 ++ r) (List.length l1) src = l1 ++ copyAt r O src.
Proof.
  induction l1 as [|x l1 IH]; simpl.
  - destruct r; reflexivity.
  - now rewrite IH.
Qed.

Lemma copyAt_shift {A : Type} (l : list A) (x : A) :
  exists z, copyAt (x :: l) O l = l ++ [z].
Proof.
  revert x. induction l as [|y l IH]; intros x.
  - exists x. reflexivity.
  - destruct (IH y) as [z Hz]. exists z.
    change (copyAt (x :: y :: l) 0 (y :: l)) with (y :: copyAt (y :: l) 0 l).
    now rewrite Hz.
Qed.

Lemma deleteAt_app (l1 l2 : list string) (x : string) :
  deleteAt (l1 ++ x :: l2) (List.length l1) = l1 ++ l2.
Proof.
  unfold deleteAt.
  replace (skipn (List.length l1 + 1) (l1 ++ x :: l2)) with l2.
  2:{ replace (List.length l1 + 1)%nat with (List.length l1 + 1 + 0)%nat by lia.
      rewrite <- Nat.add_assoc. rewrite skipn_app.
      rewrite skipn_all2 by lia.
      replace (List.length l1 + (1 + 0) - List.length l1)%nat with 1%nat by lia.
      reflexivity. }
  rewrite copyAt_app. destruct (copyAt_shift l2 x) as [z Hz]. rewrite Hz.
  rewrite app_assoc.
  replace (List.length (l1 ++ x :: l2) - 1)%nat
    with (List.length (l1 ++ l2) + 0)%nat
    by (rewrite !length_app; simpl; lia).
  rewrite firstn_app_2. simpl. now rewrite app_nil_r.
Qed.

Lemma indexOf_None (p : string) (l : list string) (i : nat) :
  indexOf p l i = None <-> ~ In p l.
Proof.
  revert i. induction l as [|x l IH]; intros i; simpl.
  - tauto.
  - destruct (String.eqb_spec x p) as [->|Hne].
    + split; [discriminate|]. intros H. exfalso. apply H. now left.
    + rewrite IH. split.
      * intros H [E|E]; [congruence|tauto].
      * intros H E. apply H. now right.
Qed.

Lemma indexOf_first (p : string) (l1 l2 : list string) (i : nat) :
  ~ In p l1 -> indexOf p (l1 ++ p :: l2) i = Some (i + List.length l1)%nat.
Proof.
  revert i. induction l1 as [|x l1 IH]; intros i Hn; simpl.
  - rewrite String.eqb_refl. f_equal. lia.
  - destruct (String.eqb_spec x p) as [->|Hne].
    + exfalso. apply Hn. now left.
    + rewrite IH by (intros E; apply Hn; now right). f_equal. lia.
Qed.

(** What [Remove] leaves of the list, when the path is in it. *)
Lemma Remove_paths_first (os : OS) (a : autotest) (p : string)
  (l1 l2 : list string) :
  paths a = l1 ++ p :: l2 -> ~ In p l1 ->
  paths (fst (Remove os a p)) = l1 ++ l2.
Proof.
  intros Hp Hn. unfold Remove. simpl fst.
  rewrite Hp, (indexOf_first p l1 l2 0 Hn). simpl.
  apply deleteAt_app.
Qed.

(** ... and when it is not. *)
Lemma Remove_paths_absent (os : OS) (a : autotest) (p : string) :
  ~ In p (paths a) -> fst (Remove os a p) = a.
Proof.
  intros Hn. unfold Remove. simpl fst.
  now rewrite (proj2 (indexOf_None p (paths a) 0) Hn).
Qed.

Lemma Remove_error (os : OS) (a : autotest) (p : string) :
  snd (Remove os a p) = fs_Remove os p.
Proof. reflexivity. Qed.

Lemma in_first_split (p : string) (l : list string) :
  In p l -> exists l1 l2, l = l1 ++ p :: l2 /\ ~ In p l1.
Proof.
  induction l as [|x l IH]; simpl; [tauto|]. intros H.
  destruct (String.eqb_spec x p) as [->|Hne].
  - exists [], l. split; [reflexivity|]. simpl. tauto.
  - destruct H as [E|H]; [congruence|].
    destruct (IH H) as (l1 & l2 & -> & Hn).
    exists (x :: l1), l2. split; [reflexivity|].
    simpl. intros [E|E]; [congruence|tauto].
Qed.


(** C3, as the spec words it, fails: a second [Add] of a path appends it
    a second time. *)
Lemma Add_twice_counterexample :
  exists a1 a2,
    Add osFine (newWatcher "/go/src") "/go/src/pkg" = Ret (a1, None) /\
    Add osFine a1 "/go/src/pkg" = Ret (a2, None) /\
    paths a1 = ["/go/src/pkg"] /\
    paths a2 = ["/go/src/pkg"; "/go/src/pkg"] /\
    paths a2 <> paths a1.
Proof.
  eexists. eexists. repeat split. simpl. discriminate.
Qed.

(** C3, amended.  [Add] appends the path to the tracked list whenever the
    registration succeeds, whether or not the list already holds it: the list
    can hold a path more than once, and calling [Add] twice for a path leaves
    it at the end of the list twice. *)
Theorem Add_appends_always (os1 os2 : OS) (a : autotest) (p : string) :
  fs_Add os1 p = None ->
  fs_Add os2 p = None ->
  exists a1 a2,
    Add os1 a p = Ret (a1, None) /\
    Add os2 a1 p = Ret (a2, None) /\
    paths a1 = paths a ++ [p] /\
    paths a2 = paths a ++ [p; p] /\
    paths a2 <> paths a1.
Proof.
  intros H1 H2.
  exists (set_paths a (paths a ++ [p])).
  exists (set_paths (set_paths a (paths a ++ [p])) ((paths a ++ [p]) ++ [p])).
  unfold Add. rewrite H1, H2. simpl.
  repeat split.
  - now rewrite <- app_assoc.
  - intros E. apply (f_equal (@List.length string)) in E.
    rewrite !length_app in E. simpl in E. lia.
Qed.

Lemma Add_appends_always_witness :
  exists a1 a2,
    Add osFine (newWatcher "/go/src") "/go/src/pkg" = Ret (a1, None) /\
    Add osFine a1 "/go/src/pkg" = Ret (a2, None) /\
    paths a1 = paths (newWatcher "/go/src") ++ ["/go/src/pkg"] /\
    paths a2 = paths (newWatcher "/go/src") ++ ["/go/src/pkg"; "/go/src/pkg"] /\
    paths a2 <> paths a1.
Proof.
  apply (Add_appends_always osFine osFine (newWatcher "/go/src") "/go/src/pkg");
    reflexivity.
Defined.

(** C10.  [Remove] deletes one entry, the first one equal to the path:
    when the list is [l1 ++ path :: l2] with no [path] in [l1], it becomes
    [l1 ++ l2], one entry shorter, so a later occurrence (in [l2]) is still
    there; after two calls of [Add] for a path, one [Remove] leaves the
    path tracked. *)
Theorem Remove_first_occurrence_only (os osA osB : OS) (a : autotest)
  (path : string) (l1 l2 : list string) :
  paths a = l1 ++ path :: l2 ->
  ~ In path l1 ->
  paths (fst (Remove os a path)) = l1 ++ l2 /\
  List.length (paths a) = S (List.length (paths (fst (Remove os a path)))) /\
  (In path l2 -> In path (paths (fst (Remove os a path)))) /\
  (forall a1 a2,
      Add osA a path = Ret (a1, None) ->
      Add osB a1 path = Ret (a2, None) ->
      In path (paths (fst (Remove os a2 path)))).
Proof.
  intros Hp Hn.
  rewrite (Remove_paths_first os a path l1 l2 Hp Hn).
  split; [reflexivity|]. split; [|split].
  - rewrite Hp, !length_app. simpl. lia.
  - intros H. apply in_or_app. now right.
  - intros a1 a2 H1 H2. unfold Add in H1, H2.
    destruct (fs_Add osA path); [discriminate|].
    destruct (fs_Add osB path); [discriminate|].
    injection H1 as <-. injection H2 as <-.
    rewrite (Remove_paths_first os _ path l1 (l2 ++ [path] ++ [path])).
    + apply in_or_app. right. apply in_or_app. right. simpl. tauto.
    + cbn [paths set_paths]. rewrite Hp. rewrite <- !app_assoc. reflexivity.
    + exact Hn.
Qed.

Lemma Remove_first_occurrence_only_witness :
  paths (fst (Remove osFine
                (set_paths (newWatcher "/go/src") ["/a"; "/b"; "/a"]) "/a"))
    = [] ++ ["/b"; "/a"].
Proof.
  apply (Remove_first_occurrence_only osFine osFine osFine
           (set_paths (newWatcher "/go/src") ["/a"; "/b"; "/a"]) "/a"
           [] ["/b"; "/a"]).
  - reflexivity.
  - simpl. tauto.
Defined.

(** ** The event classifier *)

Lemma onWrite_armed (a : autotest) (f : string) :
  onWrite a f true = Next a true.
Proof. unfold onWrite. now destruct (skipFile _ _). Qed.

Lemma onWrite_flag (a : autotest) (f : string) (m : bool) :
  onWrite a f m
    = Next a (m || negb (skipFile (IgnoreFiles a) (Filepath.Base f))).
Proof.
  unfold onWrite. destruct (skipFile _ _); simpl.
  - now rewrite orb_false_r.
  - now rewrite orb_true_r.
Qed.

Lemma Remove_IgnoreFiles (os : OS) (a : autotest) (p : string) :
  IgnoreFiles (fst (Remove os a p)) = IgnoreFiles a.
Proof. unfold Remove. simpl. now destruct (indexOf _ _ _). Qed.


Lemma onRemove_tolerated (os : OS) (a : autotest) (f : string) (m : bool) :
  removalTolerated os f ->
  onRemove os a f m = Next (fst (Remove os a f)) true.
Proof.
  intros H. unfold onRemove.
  destruct (Remove os a f) as [a' e] eqn:E.
  assert (He : e = fs_Remove os f)
    by (now rewrite <- (Remove_error os a f), E).
  simpl fst. destruct H as [H|(e' & H & Hpre)]; rewrite H in He; subst e.
  - reflexivity.
  - now rewrite Hpre.
Qed.


(** C6, as the spec words it, fails: with the path tracked twice, a
    removed event reports a modification but the path is still in the
    list. *)
Lemma removed_event_counterexample :
  exists a',
    handleEvent osFine tracksTwice
      {| Fsnotify.Name := "/go/src/d"; Fsnotify.Op := Fsnotify.Remove |}
      = Ret (a', (true, None)) /\
    In "/go/src/d" (paths a').
Proof. eexists. split; [reflexivity|]. simpl. tauto. Qed.

(** C6, amended.  For every event with the removed bit and without the
    created bit, whose unregistration succeeds or fails with the tolerated
    "not watched" error, the classifier reports a modification and no error,
    and the first occurrence of the path has been deleted from the tracked
    list, the order of the other entries kept; the path is absent afterwards
    when the list held no duplicates; a path that was not tracked leaves the
    session as it was. *)
Theorem removed_event_arms_and_untracks (os : OS) (a : autotest)
  (ev : Fsnotify.Event) :
  Fsnotify.has (Fsnotify.Op ev) Fsnotify.Create = false ->
  Fsnotify.has (Fsnotify.Op ev) Fsnotify.Remove = true ->
  removalTolerated os (Fsnotify.Name ev) ->
  exists a',
    handleEvent os a ev = Ret (a', (true, None)) /\
    (forall l1 l2, paths a = l1 ++ Fsnotify.Name ev :: l2 ->
                   ~ In (Fsnotify.Name ev) l1 -> paths a' = l1 ++ l2) /\
    (~ In (Fsnotify.Name ev) (paths a) -> a' = a) /\
    (NoDup (paths a) -> ~ In (Fsnotify.Name ev) (paths a')).
Proof.
  intros Hc Hr Htol.
  exists (fst (Remove os a (Fsnotify.Name ev))).
  split; [|split; [|split]].
  - unfold handleEvent, handleEventFlow. rewrite Hc, Hr. simpl andThen.
    rewrite (onRemove_tolerated os a _ false Htol). simpl andThen.
    destruct (Fsnotify.has _ Fsnotify.Write); [rewrite onWrite_armed|];
      reflexivity.
  - intros l1 l2. apply Remove_paths_first.
  - apply Remove_paths_absent.
  - intros Hnd Hin.
    destruct (in_dec string_dec (Fsnotify.Name ev) (paths a)) as [Hi|Hi].
    + destruct (in_first_split _ _ Hi) as (l1 & l2 & Hp & Hn).
      rewrite (Remove_paths_first os a _ l1 l2 Hp Hn) in Hin.
      rewrite Hp in Hnd. apply NoDup_remove_2 in Hnd. contradiction.
    + rewrite (Remove_paths_absent os a _ Hi) in Hin. contradiction.
Qed.

Lemma removed_event_arms_and_untracks_witness :
  exists a',
    handleEvent osFine (set_paths (newWatcher "/go/src") ["/x"; "/d"; "/y"])
      {| Fsnotify.Name := "/d"; Fsnotify.Op := Fsnotify.Remove |}
      = Ret (a', (true, None)) /\
    paths a' = ["/x"; "/y"].
Proof.
  destruct (removed_event_arms_and_untracks osFine
              (set_paths (newWatcher "/go/src") ["/x"; "/d"; "/y"])
              {| Fsnotify.Name := "/d"; Fsnotify.Op := Fsnotify.Remove |}
              eq_refl eq_refl (or_introl eq_refl))
    as (a' & H & Hl & _).
  exists a'. split; [exact H|].
  apply (Hl ["/x"] ["/y"]); [reflexivity|].
  simpl. intros [E|[]]. discriminate.
Defined.

(** C7.  For every event with the created bit alone (of the three bits
    the classifier reads): when the path stats as a directory the classifier
    returns exactly when the registration succeeds, and then the path is in
    the tracked list and the event counts neither as a modification nor as
    an error; when it stats as a file the event counts as a modification;
    when the stat fails with "no such file or directory" the event changes
    nothing and is no error. *)
Theorem created_event_cases (os : OS) (a : autotest) (ev : Fsnotify.Event) :
  Fsnotify.has (Fsnotify.Op ev) Fsnotify.Create = true ->
  Fsnotify.has (Fsnotify.Op ev) Fsnotify.Remove = false ->
  Fsnotify.has (Fsnotify.Op ev) Fsnotify.Write = false ->
  match os_Stat os (Fsnotify.Name ev) with
  | StatInfo true =>
      match handleEvent os a ev with
      | Ret (a', (modified, err)) =>
          fs_Add os (Fsnotify.Name ev) = None /\
          paths a' = paths a ++ [Fsnotify.Name ev] /\
          In (Fsnotify.Name ev) (paths a') /\
          modified = false /\ err = None
      | Fatal m => fs_Add os (Fsnotify.Name ev) = Some m
      end
  | StatInfo false => handleEvent os a ev = Ret (a, (true, None))
  | StatError e =>
      Strings.HasSuffix e noSuchFile = true ->
      handleEvent os a ev = Ret (a, (false, None))
  end.
Proof.
  intros Hc Hr Hw.
  unfold handleEvent, handleEventFlow. rewrite Hc, Hr, Hw.
  unfold onCreate, Add.
  destruct (os_Stat os (Fsnotify.Name ev)) as [[|]|e].
  - destruct (fs_Add os (Fsnotify.Name ev)) as [m|]; simpl; [reflexivity|].
    repeat split. apply in_or_app. right. simpl. tauto.
  - reflexivity.
  - intros ->. reflexivity.
Qed.

Lemma created_event_cases_witness :
  match handleEvent osFine (newWatcher "/go/src")
          {| Fsnotify.Name := "/go/src/new"; Fsnotify.Op := Fsnotify.Create |}
  with
  | Ret (a', (modified, err)) =>
      fs_Add osFine "/go/src/new" = None /\
      paths a' = paths (newWatcher "/go/src") ++ ["/go/src/new"] /\
      In "/go/src/new" (paths a') /\ modified = false /\ err = None
  | Fatal m => fs_Add osFine "/go/src/new" = Some m
  end.
Proof.
  apply (created_event_cases osFine (newWatcher "/go/src")
           {| Fsnotify.Name := "/go/src/new"; Fsnotify.Op := Fsnotify.Create |});
    reflexivity.
Defined.

(** C5, as the spec words it, fails: on an event with the created and
    the removed bit whose stat fails with "no such file or directory", the
    classifier returns before the removed bit: no modification is reported
    and the path is still tracked. *)
Lemma created_removed_gone_counterexample :
  let ev := {| Fsnotify.Name := "/go/src/d";
               Fsnotify.Op := Z.lor Fsnotify.Create Fsnotify.Remove |} in
  Fsnotify.has (Fsnotify.Op ev) Fsnotify.Create = true /\
  Fsnotify.has (Fsnotify.Op ev) Fsnotify.Remove = true /\
  (exists e, os_Stat osGone (Fsnotify.Name ev) = StatError e /\
             Strings.HasSuffix e noSuchFile = true) /\
  handleEvent osGone tracksOne ev = Ret (tracksOne, (false, None)) /\
  In "/go/src/d" (paths tracksOne).
Proof.
  repeat split.
  - eexists. split; reflexivity.
  - simpl. tauto.
Qed.

(** C5, amended.  The classifier evaluates the kind bits in the order
    created, removed, written.  A created bit whose stat fails ends the
    handling of the event at once, whatever other bits it carries: with "no
    such file or directory" the result is no modification and no error, and
    the session is unchanged (so the removed bit of such an event is not
    processed); with another stat error the result is that error.  When no
    block returns early (the created path stats and registers, a removal
    succeeds or fails with the tolerated "not watched" error), every bit
    present is evaluated and the result is the OR of the per-bit flags with
    no error. *)
Theorem classifier_bits (os : OS) (a : autotest) (ev : Fsnotify.Event) :
  (Fsnotify.has (Fsnotify.Op ev) Fsnotify.Create = true ->
   forall e, os_Stat os (Fsnotify.Name ev) = StatError e ->
     handleEvent os a ev
       = Ret (a, (false, if Strings.HasSuffix e noSuchFile
                         then None else Some e))) /\
  (evaluatesAllBits os ev ->
   exists a',
     handleEvent os a ev
       = Ret (a', ((Fsnotify.has (Fsnotify.Op ev) Fsnotify.Create
                      && createdFlag os (Fsnotify.Name ev))
                   || Fsnotify.has (Fsnotify.Op ev) Fsnotify.Remove
                   || (Fsnotify.has (Fsnotify.Op ev) Fsnotify.Write
                         && writtenFlag a (Fsnotify.Name ev)),
                   None))).
Proof.
  split.
  - intros Hc e He. unfold handleEvent, handleEventFlow.
    rewrite Hc. unfold onCreate. rewrite He.
    now destruct (Strings.HasSuffix e noSuchFile).
  - intros [Hcr Hrm]. unfold handleEvent, handleEventFlow, createdFlag.
    destruct (Fsnotify.has (Fsnotify.Op ev) Fsnotify.Create) eqn:Hc.
    + destruct (Hcr eq_refl) as (d & Hs & Hadd).
      unfold onCreate, Add. rewrite Hs. destruct d.
      * rewrite (Hadd eq_refl). simpl andThen.
        destruct (Fsnotify.has (Fsnotify.Op ev) Fsnotify.Remove) eqn:Hr.
        -- rewrite (onRemove_tolerated _ _ _ _ (Hrm eq_refl)). simpl andThen.
           eexists.
           destruct (Fsnotify.has _ Fsnotify.Write);
             [rewrite onWrite_armed|]; reflexivity.
        -- simpl andThen. eexists.
           destruct (Fsnotify.has _ Fsnotify.Write);
             [rewrite onWrite_flag|]; reflexivity.
      * simpl andThen.
        destruct (Fsnotify.has (Fsnotify.Op ev) Fsnotify.Remove) eqn:Hr.
        -- rewrite (onRemove_tolerated _ _ _ _ (Hrm eq_refl)). simpl andThen.
           eexists.
           destruct (Fsnotify.has _ Fsnotify.Write);
             [rewrite onWrite_armed|]; reflexivity.
        -- simpl andThen. eexists.
           destruct (Fsnotify.has _ Fsnotify.Write);
             [rewrite onWrite_armed|]; reflexivity.
    + simpl andThen.
      destruct (Fsnotify.has (Fsnotify.Op ev) Fsnotify.Remove) eqn:Hr.
      * rewrite (onRemove_tolerated _ _ _ _ (Hrm eq_refl)). simpl andThen.
        eexists.
        destruct (Fsnotify.has _ Fsnotify.Write);
          [rewrite onWrite_armed|]; reflexivity.
      * simpl andThen. eexists.
        destruct (Fsnotify.has _ Fsnotify.Write);
          [rewrite onWrite_flag|]; reflexivity.
Qed.

Lemma classifier_bits_witness :
  handleEvent osGone tracksOne
    {| Fsnotify.Name := "/go/src/d";
       Fsnotify.Op := Z.lor Fsnotify.Create Fsnotify.Remove |}
    = Ret (tracksOne, (false, None)).
Proof.
  exact (proj1 (classifier_bits osGone tracksOne
                  {| Fsnotify.Name := "/go/src/d";
                     Fsnotify.Op := Z.lor Fsnotify.Create Fsnotify.Remove |})
           eq_refl _ eq_refl).
Defined.

(** C4: the code at a failing registration.  [Add] does not return the
    error: it ends the process through [log.Fatal], from the classifier and
    from the monitoring loop as well. *)
Theorem Add_failure_ends_process :
  let ev := {| Fsnotify.Name := "/go/src/pkg/sub";
               Fsnotify.Op := Fsnotify.Create |} in
  Add osFull (newWatcher "/go/src") "/go/src/pkg"
    = Fatal "no space left on device" /\
  handleEvent osFull (newWatcher "/go/src") ev
    = Fatal "no space left on device" /\
  monitorChanges 5 envGreen (newWatcher "/go/src") 0 false
      [ {| at_ := 1000000000; what := Notification ev osFull |};
        writeOf 1500000000 "/go/src/pkg/main.go" ]
    = [Exited 1000000000 "no space left on device"].
Proof. repeat split. Qed.

(** ** The monitoring loop *)

Lemma onCreate_settle (os : OS) (a : autotest) (f : string) (m : bool) :
  match onCreate os a f m with
  | Next a' _ | Return a' _ _ => SettleTime a' = SettleTime a
  | Die _ => True
  end.
Proof.
  unfold onCreate, Add.
  destruct (os_Stat os f) as [[|]|e]; simpl; auto.
  - now destruct (fs_Add os f).
  - now destruct (Strings.HasSuffix e noSuchFile).
Qed.

Lemma Remove_settle (os : OS) (a : autotest) (p : string) :
  SettleTime (fst (Remove os a p)) = SettleTime a.
Proof. unfold Remove. simpl. now destruct (indexOf _ _ _). Qed.

Lemma onRemove_settle (os : OS) (a : autotest) (f : string) (m : bool) :
  match onRemove os a f m with
  | Next a' _ | Return a' _ _ => SettleTime a' = SettleTime a
  | Die _ => True
  end.
Proof.
  unfold onRemove. pose proof (Remove_settle os a f) as H.
  destruct (Remove os a f) as [a' [e|]]; simpl in *; auto.
  now destruct (Strings.HasPrefix e notWatched).
Qed.

Lemma handleEvent_settle (os : OS) (a a' : autotest) (ev : Fsnotify.Event)
  (r : bool * error) :
  handleEvent os a ev = Ret (a', r) -> SettleTime a' = SettleTime a.
Proof.
  unfold handleEvent, handleEventFlow.
  set (f := Fsnotify.Name ev).
  assert (H1 : match (if Fsnotify.has (Fsnotify.Op ev) Fsnotify.Create
                      then onCreate os a f false else Next a false) with
               | Next a1 _ | Return a1 _ _ => SettleTime a1 = SettleTime a
               | Die _ => True end).
  { destruct (Fsnotify.has _ Fsnotify.Create);
      [apply onCreate_settle|reflexivity]. }
  destruct (if Fsnotify.has (Fsnotify.Op ev) Fsnotify.Create
            then onCreate os a f false else Next a false)
    as [a1 m1|a1 m1 e1|msg]; simpl andThen.
  2:{ intros E. injection E as <- _. exact H1. }
  2:{ discriminate. }
  assert (H2 : match (if Fsnotify.has (Fsnotify.Op ev) Fsnotify.Remove
                      then onRemove os a1 f m1 else Next a1 m1) with
               | Next a2 _ | Return a2 _ _ => SettleTime a2 = SettleTime a
               | Die _ => True end).
  { destruct (Fsnotify.has _ Fsnotify.Remove).
    - pose proof (onRemove_settle os a1 f m1) as H.
      destruct (onRemove os a1 f m1); congruence.
    - exact H1. }
  destruct (if Fsnotify.has (Fsnotify.Op ev) Fsnotify.Remove
            then onRemove os a1 f m1 else Next a1 m1)
    as [a2 m2|a2 m2 e2|msg]; simpl andThen.
  2:{ intros E. injection E as <- _. exact H2. }
  2:{ discriminate. }
  unfold onWrite.
  destruct (Fsnotify.has _ Fsnotify.Write);
    [destruct (skipFile _ _)|]; simpl; intros E; injection E as <- _;
    exact H2.
Qed.

Lemma takes_settle (env : Env) (a a' : autotest) (now : Z) (i : Timed) :
  SettleTime a' = SettleTime a -> takes env a' now i = takes env a now i.
Proof. unfold takes. now intros ->. Qed.

Lemma burst_settle (env : Env) (a a' : autotest) (l : list Timed) :
  SettleTime a' = SettleTime a ->
  forall now, burst env a now l -> burst env a' now l.
Proof.
  intros Hs. induction l as [|i rest IH]; simpl; [auto|].
  intros now (H1 & H2 & H3). rewrite (takes_settle env a a' now i Hs).
  auto.
Qed.

(** One iteration in which the timer wins. *)
Lemma monitorChanges_timer (fuel : nat) (env : Env) (a : autotest) (now : Z)
  (modified : bool) (inputs : list Timed) :
  match inputs with [] => True | i :: _ => takes env a now i = false end ->
  monitorChanges (S fuel) env a now modified inputs
  = if modified then
      Triggered (now + SettleTime a) ::
        monitorChanges fuel env
          (fst (RunTests a (handleModifications env a (now + SettleTime a))
                  (now + SettleTime a)))
          (now + SettleTime a) false inputs
    else monitorChanges fuel env a (now + SettleTime a) modified inputs.
Proof.
  destruct inputs as [|i rest]; intros H; cbn [monitorChanges].
  - reflexivity.
  - now rewrite H.
Qed.

(** One iteration in which an input wins. *)
Lemma monitorChanges_input (fuel : nat) (env : Env) (a : autotest) (now : Z)
  (modified : bool) (i : Timed) (rest : list Timed) :
  takes env a now i = true ->
  monitorChanges (S fuel) env a now modified (i :: rest)
  = match what i with
    | Stop => [Finished (Z.max now (at_ i))]
    | SourceError e =>
        LoggedError (Z.max now (at_ i)) e ::
          monitorChanges fuel env a (Z.max now (at_ i)) modified rest
    | Notification event os =>
        match handleEvent os a event with
        | Fatal m => [Exited (Z.max now (at_ i)) m]
        | Ret (a', (_, Some e)) =>
            LoggedError (Z.max now (at_ i)) e ::
              monitorChanges fuel env a' (Z.max now (at_ i)) modified rest
        | Ret (a', (mod_, None)) =>
            monitorChanges fuel env a' (Z.max now (at_ i))
              (if mod_ then true else modified) rest
        end
    end.
Proof. intros H. cbn [monitorChanges]. now rewrite H. Qed.

(** With nothing pending and nothing arriving, nothing is launched. *)
Lemma idle_forever (fuel : nat) (env : Env) :
  forall a now, triggers (monitorChanges fuel env a now false []) = [].
Proof.
  induction fuel as [|fuel IH]; intros a now; [reflexivity|].
  rewrite monitorChanges_timer by exact I. apply IH.
Qed.

(** With a modification pending and nothing arriving, the next timer
    launches the tests, once. *)
Lemma pending_fires_once (fuel : nat) (env : Env) (a : autotest) (now : Z) :
  triggers (monitorChanges (S fuel) env a now true [])
  = [now + SettleTime a].
Proof.
  rewrite monitorChanges_timer by exact I.
  cbn [triggers]. now rewrite idle_forever.
Qed.

(** A burst, each input received before the timer of its [select] runs
    out: the tests are launched once, a settle time after the last input,
    when a modification is pending at the end of it; and not within the
    iterations the burst itself takes. *)
Lemma burst_then_settle (env : Env) (l : list Timed) :
  forall fuel a now m a' m',
    burst env a now l ->
    replay a m l = Some (a', m') ->
    triggers (monitorChanges fuel env a now m l)
    = if (List.length l <? fuel)%nat && m'
      then [lastAt now l + SettleTime a] else [].
Proof.
  induction l as [|i rest IH]; intros fuel a now m a' m' Hb Hr.
  - simpl in Hr. injection Hr as <- <-.
    destruct fuel as [|fuel]; [reflexivity|].
    change (List.length (@nil Timed) <? S fuel)%nat with true.
    destruct m; cbn [andb lastAt].
    + apply pending_fires_once.
    + apply idle_forever.
  - destruct Hb as (Hle & Htk & Hb).
    destruct fuel as [|fuel]; [reflexivity|].
    rewrite (monitorChanges_input _ _ _ _ _ _ _ Htk).
    rewrite Z.max_r by exact Hle.
    change (List.length (i :: rest) <? S fuel)%nat
      with (List.length rest <? fuel)%nat.
    cbn [lastAt]. cbn [replay] in Hr.
    destruct (what i) as [|e|ev os]; [discriminate| |].
    + cbn [triggers]. now apply (IH _ _ _ _ a' m').
    + destruct (handleEvent os a ev) as [[a1 [md [e|]]]|msg] eqn:He;
        [| |discriminate].
      * cbn [triggers].
        rewrite <- (handleEvent_settle _ _ _ _ _ He).
        apply (IH _ _ _ _ a' m'); [|exact Hr].
        apply (burst_settle env a a1); [|exact Hb].
        apply (handleEvent_settle _ _ _ _ _ He).
      * rewrite <- (handleEvent_settle _ _ _ _ _ He).
        apply (IH _ _ _ _ a' m'); [|exact Hr].
        apply (burst_settle env a a1); [|exact Hb].
        apply (handleEvent_settle _ _ _ _ _ He).
Qed.

(** Before the first input of a burst the loop idles: its timers run out
    with nothing pending, launch nothing, and after [k] of them the [select]
    that receives the input is entered. *)
Lemma idle_until_first (env : Env) (a : autotest) (i : Timed)
  (rest : list Timed) :
  0 < SettleTime a ->
  forall n now,
    now <= at_ i ->
    Z.to_nat ((at_ i - now) / SettleTime a) = n ->
    exists k now',
      now <= now' <= at_ i /\
      takes env a now' i = true /\
      (forall fuel,
          triggers (monitorChanges (k + fuel) env a now false (i :: rest))
          = triggers (monitorChanges fuel env a now' false (i :: rest))) /\
      (forall fuel, (fuel <= k)%nat ->
          triggers (monitorChanges fuel env a now false (i :: rest)) = []).
Proof.
  intros Hs. induction n as [|n IH]; intros now Hle Hn;
    destruct (takes env a now i) eqn:Htk;
    try (exists O, now; split; [lia|]; split; [exact Htk|]; split;
         [reflexivity|];
         intros fuel Hf; replace fuel with O by lia; reflexivity).
  - exfalso. unfold takes in Htk.
    apply orb_false_iff in Htk. destruct Htk as [Htk _].
    apply Z.ltb_ge in Htk.
    assert (0 <= (at_ i - now) / SettleTime a) by (apply Z.div_pos; lia).
    assert (Hq : (at_ i - now) / SettleTime a = 0) by lia.
    pose proof (Z.div_mod (at_ i - now) (SettleTime a) ltac:(lia)) as Hd.
    pose proof (Z.mod_pos_bound (at_ i - now) (SettleTime a) Hs) as Hm.
    rewrite Hq in Hd. lia.
  - assert (Hge : now + SettleTime a <= at_ i).
    { unfold takes in Htk. apply orb_false_iff in Htk.
      destruct Htk as [Htk _]. now apply Z.ltb_ge in Htk. }
    destruct (IH (now + SettleTime a) Hge) as (k & now' & Hb & Ht & Hrun & Hshort).
    { replace (at_ i - (now + SettleTime a))
        with ((at_ i - now) + (-1) * SettleTime a) by lia.
      rewrite Z.div_add by lia. lia. }
    exists (S k), now'. split; [lia|]. split; [exact Ht|]. split.
    + intros fuel. change (S k + fuel)%nat with (S (k + fuel)).
      rewrite monitorChanges_timer by exact Htk. apply Hrun.
    + intros [|fuel] Hf; [reflexivity|].
      rewrite monitorChanges_timer by exact Htk. apply Hshort. lia.
Qed.

Lemma qualifyingWrite_handled (a : autotest) (ev : Fsnotify.Event) (os : OS) :
  Fsnotify.has (Fsnotify.Op ev) Fsnotify.Create = false ->
  Fsnotify.has (Fsnotify.Op ev) Fsnotify.Remove = false ->
  Fsnotify.has (Fsnotify.Op ev) Fsnotify.Write = true ->
  skipFile (IgnoreFiles a) (Filepath.Base (Fsnotify.Name ev)) = false ->
  handleEvent os a ev = Ret (a, (true, None)).
Proof.
  intros Hc Hr Hw Hk. unfold handleEvent, handleEventFlow.
  rewrite Hc, Hr, Hw. simpl andThen. unfold onWrite. now rewrite Hk.
Qed.

Lemma replay_writes (a : autotest) (l : list Timed) :
  Forall (qualifyingWrite a) l ->
  forall m, replay a m l
            = Some (a, match l with [] => m | _ :: _ => true end).
Proof.
  induction 1 as [|i rest Hi _ IH]; intros m; [reflexivity|].
  destruct Hi as (ev & os & Hw & Hc & Hr & Hwr & Hk).
  cbn [replay]. rewrite Hw.
  rewrite (qualifyingWrite_handled a ev os Hc Hr Hwr Hk).
  rewrite IH. now destruct rest.
Qed.

Lemma within_burst (env : Env) (a : autotest) (l : list Timed) :
  forall prev, within (SettleTime a) prev l -> burst env a prev l.
Proof.
  induction l as [|i rest IH]; simpl; [auto|].
  intros prev ([H1 H2] & H3). split; [exact H1|]. split; [|now apply IH].
  unfold takes. apply orb_true_iff. left. now apply Z.ltb_lt.
Qed.

Lemma replay_armed (l : list Timed) :
  forall a m a' m',
    replay a m l = Some (a', m') -> replay a true l = Some (a', true).
Proof.
  induction l as [|i rest IH]; intros a m a' m' H; cbn [replay] in *.
  - now injection H as <- _.
  - destruct (what i) as [|e|ev os]; [discriminate|now apply (IH _ m _ m')|].
    destruct (handleEvent os a ev) as [[a1 [md [e|]]]|msg];
      [now apply (IH _ m _ m')| |discriminate].
    apply IH in H. now destruct md.
Qed.

Lemma replay_stays_armed (l : list Timed) (a a' : autotest) (m' : bool) :
  replay a true l = Some (a', m') -> m' = true.
Proof.
  intros H. pose proof (replay_armed l a true a' m' H) as H'.
  rewrite H in H'. now injection H' as ->.
Qed.

(** Inputs that are no modification leave an idle loop idle, whenever
    they arrive. *)
Lemma non_modifications_never_arm (env : Env) (fuel : nat) :
  forall a now l a',
    replay a false l = Some (a', false) ->
    triggers (monitorChanges fuel env a now false l) = [].
Proof.
  induction fuel as [|fuel IH]; intros a now l a' Hr; [reflexivity|].
  destruct l as [|i rest]; [apply idle_forever|].
  destruct (takes env a now i) eqn:Htk.
  - rewrite (monitorChanges_input _ _ _ _ _ _ _ Htk).
    cbn [replay] in Hr.
    destruct (what i) as [|e|ev os]; [discriminate| |].
    + cbn [triggers]. now apply (IH _ _ _ a').
    + destruct (handleEvent os a ev) as [[a1 [md [e|]]]|msg];
        [| |discriminate].
      * cbn [triggers]. now apply (IH _ _ _ a').
      * destruct md.
        -- apply replay_stays_armed in Hr. discriminate.
        -- now apply (IH _ _ _ a').
  - rewrite monitorChanges_timer by exact Htk. now apply (IH _ _ _ a').
Qed.

(** C1.  A burst of written events on basenames that no ignore pattern
    matches, each arriving strictly within the settle time of the one
    before it, to a loop that has nothing pending: the loop launches the
    tests exactly once, a settle time after the last event of the burst.
    ([N] is the number of loop iterations up to and including the last
    event; shorter runs have launched nothing yet, and however long the
    loop runs after that, there is one launch.) *)
Theorem burst_of_writes_fires_once (env : Env) (a : autotest) (now : Z)
  (i : Timed) (rest : list Timed) :
  0 < SettleTime a ->
  now <= at_ i ->
  Forall (qualifyingWrite a) (i :: rest) ->
  within (SettleTime a) (at_ i) rest ->
  exists N, forall fuel,
    triggers (monitorChanges fuel env a now false (i :: rest))
    = if (N <? fuel)%nat
      then [lastAt (at_ i) rest + SettleTime a] else [].
Proof.
  intros Hs Hle Hw Hin.
  destruct (idle_until_first env a i rest Hs _ now Hle eq_refl)
    as (k & now' & Hb & Htk & Hrun & Hshort).
  exists (k + List.length (i :: rest))%nat. intros fuel.
  destruct (Nat.le_gt_cases fuel k) as [Hf|Hf].
  - rewrite (Hshort fuel Hf).
    replace (k + List.length (i :: rest) <? fuel)%nat with false; [reflexivity|].
    symmetry. apply Nat.ltb_ge. lia.
  - replace fuel with (k + (fuel - k))%nat at 1 by lia.
    rewrite Hrun.
    rewrite (burst_then_settle env (i :: rest) _ a now' false a true).
    + rewrite andb_true_r. cbn [lastAt].
      replace (k + List.length (i :: rest) <? fuel)%nat
        with (List.length (i :: rest) <? fuel - k)%nat; [reflexivity|].
      destruct (Nat.ltb_spec (List.length (i :: rest)) (fuel - k));
        symmetry; [apply Nat.ltb_lt|apply Nat.ltb_ge]; lia.
    + split; [lia|]. split; [exact Htk|]. now apply within_burst.
    + now rewrite (replay_writes a (i :: rest) Hw).
Qed.

Lemma burst_of_writes_fires_once_witness :
  exists N, forall fuel,
    triggers (monitorChanges fuel envGreen (newWatcher "/go/src") 0 false
                [ writeOf 5000000000 "/go/src/pkg/a.go";
                  writeOf 6000000000 "/go/src/pkg/b.go";
                  writeOf 7900000000 "/go/src/pkg/a.go" ])
    = if (N <? fuel)%nat then [7900000000 + 2 * Time.Second] else [].
Proof.
  apply (burst_of_writes_fires_once envGreen (newWatcher "/go/src") 0
           (writeOf 5000000000 "/go/src/pkg/a.go")
           [ writeOf 6000000000 "/go/src/pkg/b.go";
             writeOf 7900000000 "/go/src/pkg/a.go" ]).
  - reflexivity.
  - simpl. lia.
  - repeat constructor;
      (eexists; eexists; repeat split; reflexivity).
  - simpl. lia.
Defined.

(** C2, as the spec words it, fails: a source file is written at 1s and
    the tests should be launched at 3s, but the swap file, whose writes are
    ignored, is written at 2s, 3.5s and 5s, each write restarts the wait,
    and the one launch comes at 7s. *)
Lemma ignored_writes_postpone_counterexample :
  SettleTime (newWatcher "/go/src") = 2000000000 /\
  nonModifications (newWatcher "/go/src") (tl swapChurn) /\
  triggers (monitorChanges 20 envGreen (newWatcher "/go/src") 0 false swapChurn)
    = [7000000000] /\
  ~ In (1000000000 + SettleTime (newWatcher "/go/src"))
       (triggers (monitorChanges 20 envGreen (newWatcher "/go/src") 0 false
                    swapChurn)).
Proof.
  split; [reflexivity|]. split; [eexists; reflexivity|].
  split; [reflexivity|].
  change (triggers (monitorChanges 20 envGreen (newWatcher "/go/src") 0 false
                      swapChurn)) with [7000000000].
  simpl. intros [E|[]]. discriminate.
Qed.

(** C2, amended.  Inputs that are no modification (source errors, events
    the classifier ignores, turns into a watch-list change or fails on)
    never arm the loop: whenever they arrive, an idle loop launches nothing.
    But each of them restarts the settle wait, because every iteration of
    the loop starts a fresh timer: with a modification pending, and such
    inputs arriving each before the wait restarted by the one before it
    runs out, the tests are launched once, a settle time after the last of
    these inputs, and so not a settle time after the modification when an
    input has come since. *)
Theorem non_modifications_restart_the_wait (env : Env) (a : autotest)
  (now : Z) (l : list Timed) :
  nonModifications a l ->
  (forall fuel t, triggers (monitorChanges fuel env a t false l) = []) /\
  (burst env a now l ->
   (forall fuel,
       triggers (monitorChanges fuel env a now true l)
       = if (List.length l <? fuel)%nat
         then [lastAt now l + SettleTime a] else []) /\
   (now < lastAt now l ->
    forall fuel,
      ~ In (now + SettleTime a)
           (triggers (monitorChanges fuel env a now true l)))).
Proof.
  intros [a' Hq]. split.
  - intros fuel t. now apply (non_modifications_never_arm env fuel a t l a').
  - intros Hb.
    assert (Hfire : forall fuel,
               triggers (monitorChanges fuel env a now true l)
               = if (List.length l <? fuel)%nat
                 then [lastAt now l + SettleTime a] else []).
    { intros fuel.
      rewrite (burst_then_settle env l fuel a now true a' true Hb
                 (replay_armed l a false a' false Hq)).
      now rewrite andb_true_r. }
    split; [exact Hfire|].
    intros Hlt fuel. rewrite Hfire.
    destruct (List.length l <? fuel)%nat; simpl; [|tauto].
    intros [E|[]]. lia.
Qed.

Lemma non_modifications_restart_the_wait_witness :
  triggers (monitorChanges 10 envGreen (newWatcher "/go/src") 1000000000
              true (tl swapChurn))
  = if (List.length (tl swapChurn) <? 10)%nat
    then [lastAt 1000000000 (tl swapChurn)
          + SettleTime (newWatcher "/go/src")]
    else [].
Proof.
  refine (proj1 (proj2 (non_modifications_restart_the_wait envGreen
                          (newWatcher "/go/src") 1000000000 (tl swapChurn)
                          _) _) 10%nat).
  - eexists. reflexivity.
  - simpl. repeat split; try lia; reflexivity.
Defined.

(** ** More on rounding *)

Lemma round_neg_eq (d : Z) :
  Time.minDuration <= d -> d + 500000000 < 0 ->
  round d Time.Second
  = (d + 500000000) - Z.rem (d + 500000000) 1000000000.
Proof.
  intros Hlo Hneg. unfold round.
  change (Z.quot Time.Second 2) with 500000000.
  change Time.Second with 1000000000.
  unfold Time.minDuration in Hlo.
  rewrite (wrap64_id (d + 500000000))
    by (unfold Time.minDuration, Time.maxDuration; lia).
  pose proof (Z.rem_bound_pos_neg (d + 500000000) 1000000000
                ltac:(lia) ltac:(lia)) as Hr.
  apply wrap64_id. unfold Time.minDuration, Time.maxDuration. lia.
Qed.

(** X1.  Whole seconds are fixed points of [round], so rounding a rounded
    elapsed time changes nothing. *)
Theorem round_idempotent (d : Z) :
  0 <= d <= Time.maxDuration - 500000000 ->
  round (round d Time.Second) Time.Second = round d Time.Second.
Proof.
  intros H. rewrite (round_nonneg_eq d H).
  pose proof (Z.mod_pos_bound (d + 500000000) 1000000000 ltac:(lia)) as Hm.
  pose proof (Z.div_mod (d + 500000000) 1000000000 ltac:(lia)) as Hd.
  set (q := (d + 500000000) / 1000000000) in *.
  assert (Hq : d + 500000000 - (d + 500000000) mod 1000000000
               = q * 1000000000) by lia.
  rewrite Hq. unfold Time.maxDuration in H.
  assert (0 <= q <= 9223372036) by lia.
  rewrite round_nonneg_eq by (unfold Time.maxDuration; lia).
  replace (q * 1000000000 + 500000000)
    with (500000000 + q * 1000000000) by lia.
  rewrite Z.mod_add by lia. rewrite Z.mod_small by lia. lia.
Qed.

Lemma round_idempotent_witness :
  round (round 4600000000 Time.Second) Time.Second
  = round 4600000000 Time.Second.
Proof.
  apply (round_idempotent 4600000000). unfold Time.maxDuration. lia.
Defined.

(** X2.  [round] is monotone on elapsed times: a longer elapsed time is never
    shown as a shorter one. *)
Theorem round_monotone (d1 d2 : Z) :
  0 <= d1 -> d1 <= d2 -> d2 <= Time.maxDuration - 500000000 ->
  round d1 Time.Second <= round d2 Time.Second.
Proof.
  intros H0 H1 H2.
  rewrite !round_nonneg_eq by lia.
  pose proof (Z.div_mod (d1 + 500000000) 1000000000 ltac:(lia)) as E1.
  pose proof (Z.div_mod (d2 + 500000000) 1000000000 ltac:(lia)) as E2.
  pose proof (Z.div_le_mono (d1 + 500000000) (d2 + 500000000) 1000000000
                ltac:(lia) ltac:(lia)).
  lia.
Qed.

Lemma round_monotone_witness :
  round 4400000000 Time.Second <= round 4600000000 Time.Second.
Proof.
  apply (round_monotone 4400000000 4600000000); unfold Time.maxDuration; lia.
Defined.

(** X3.  Below minus half a second [round] does not go to the nearest second:
    [%] truncates towards zero, so the result is the whole second between
    half a second and one and a half seconds above the duration (-4.6s
    gives -4s, -4.5s gives -4s). *)
Theorem round_negative_goes_up (d : Z) :
  Time.minDuration <= d -> d < - 500000000 ->
  (exists k, k <= 0 /\ round d Time.Second = k * Time.Second) /\
  d + 500000000 <= round d Time.Second < d + 1500000000.
Proof.
  intros Hlo Hneg. rewrite (round_neg_eq d Hlo) by lia.
  pose proof (Z.rem_bound_pos_neg (d + 500000000) 1000000000
                ltac:(lia) ltac:(lia)) as Hr.
  pose proof (Z.quot_rem' (d + 500000000) 1000000000) as Hq.
  split; [|lia].
  exists (Z.quot (d + 500000000) 1000000000). split.
  - apply Z.quot_le_upper_bound; lia.
  - change Time.Second with 1000000000. lia.
Qed.

Lemma round_negative_goes_up_witness :
  -4600000000 + 500000000 <= round (-4600000000) Time.Second
    < -4600000000 + 1500000000.
Proof.
  apply (round_negative_goes_up (-4600000000)); unfold Time.minDuration; lia.
Defined.

(** ** Run status over successive runs *)

Lemma set_status_same (a : autotest) :
  set_status a (timeSuccess a) (timeFailure a) (lastState a) = a.
Proof. now destruct a. Qed.

Lemma RunTests_pass_working (a : autotest) (t : Z) :
  lastState a = working -> RunTests a None t = (a, []).
Proof.
  intros H. unfold RunTests, successMsg. rewrite H. cbn [RunState_eqb negb].
  rewrite <- H at 1. now rewrite set_status_same.
Qed.

Lemma RunTests_fail_failing (a : autotest) (e : string) (t : Z) :
  lastState a = failing ->
  RunTests a (Some e) t = (a, [red ("error: " ++ e)%string]).
Proof.
  intros H. unfold RunTests, failureMsg. rewrite H. cbn [RunState_eqb negb].
  rewrite <- H at 1. now rewrite set_status_same.
Qed.

Lemma runAll_pass_working (ts : list Z) (a : autotest) :
  lastState a = working -> runAll a (passed ts) = (a, []).
Proof.
  intros H. induction ts as [|t ts IH]; [reflexivity|].
  cbn [passed map runAll]. rewrite (RunTests_pass_working a t H).
  fold (passed ts). now rewrite IH.
Qed.

Lemma runAll_fail_failing (es : list (string * Z)) (a : autotest) :
  lastState a = failing ->
  runAll a (failed es)
  = (a, map (fun et => red ("error: " ++ fst et)%string) es).
Proof.
  intros H. induction es as [|[e t] es IH]; [reflexivity|].
  cbn [failed map runAll fst snd].
  rewrite (RunTests_fail_failing a e t H).
  fold (failed es). now rewrite IH.
Qed.

Lemma runAll_cons (a : autotest) (err : error) (t : Z)
  (rest : list (error * Z)) :
  runAll a ((err, t) :: rest)
  = (fst (runAll (fst (RunTests a err t)) rest),
     snd (RunTests a err t) ++ snd (runAll (fst (RunTests a err t)) rest)).
Proof.
  cbn [runAll]. destruct (RunTests a err t) as [a1 l1].
  cbn [fst snd]. now destruct (runAll a1 rest).
Qed.

(** X4.  While the status is working, runs that pass change nothing in the
    session (no timestamp moves) and log nothing. *)
Theorem passing_while_working_is_silent (a : autotest) (ts : list Z) :
  lastState a = working -> runAll a (passed ts) = (a, []).
Proof. intros H. now apply runAll_pass_working. Qed.

Lemma passing_while_working_is_silent_witness :
  runAll (set_status (newWatcher "/go/src") 5 0 working) (passed [7; 9; 12])
  = (set_status (newWatcher "/go/src") 5 0 working, []).
Proof.
  apply (passing_while_working_is_silent
           (set_status (newWatcher "/go/src") 5 0 working) [7; 9; 12]).
  reflexivity.
Defined.

(** X5.  While the status is failing, runs that fail change nothing in the
    session ([timeFailure] stays at the first failure) and each logs one red
    line with the bare error, without an elapsed time. *)
Theorem failing_while_failing_logs_bare_error (a : autotest)
  (es : list (string * Z)) :
  lastState a = failing ->
  runAll a (failed es)
  = (a, map (fun et => red ("error: " ++ fst et)%string) es).
Proof. intros H. now apply runAll_fail_failing. Qed.

Lemma failing_while_failing_logs_bare_error_witness :
  runAll failingSinceZero (failed [("exit status 1", 3); ("exit status 2", 8)])
  = (failingSinceZero,
     [red "error: exit status 1"; red "error: exit status 2"]).
Proof.
  apply (failing_while_failing_logs_bare_error failingSinceZero
           [("exit status 1", 3); ("exit status 2", 8)]).
  reflexivity.
Defined.

(** X6.  After a streak of failing runs that began at [t1] from a status that
    was not failing, the status is failing since [t1] however many failures
    followed, and the next passing run, at [t], logs one green line giving
    the rounded time since the first failure of the streak. *)
Theorem failure_streak_measured_from_first (a : autotest) (e1 : string)
  (t1 : Z) (rest : list (string * Z)) (t : Z) :
  lastState a <> failing ->
  let a' := fst (runAll a (failed ((e1, t1) :: rest))) in
  lastState a' = failing /\
  timeFailure a' = t1 /\
  timeSuccess a' = timeSuccess a /\
  snd (RunTests a' None t)
  = [green ("success after "
              ++ Time.String_ (round (Time.Since t t1) Time.Second)
              ++ " failures")%string] /\
  lastState (fst (RunTests a' None t)) = working /\
  timeSuccess (fst (RunTests a' None t)) = t.
Proof.
  intros Hs.
  set (a1 := fst (RunTests a (Some e1) t1)).
  assert (H1 : lastState a1 = failing) by reflexivity.
  assert (H2 : timeFailure a1 = t1).
  { unfold a1, RunTests. cbn [fst set_status timeFailure].
    destruct (lastState a); [reflexivity|reflexivity|congruence]. }
  assert (H3 : timeSuccess a1 = timeSuccess a) by reflexivity.
  assert (Ha' : fst (runAll a (failed ((e1, t1) :: rest))) = a1).
  { change (failed ((e1, t1) :: rest)) with ((Some e1, t1) :: failed rest).
    rewrite runAll_cons. fold a1.
    now rewrite (runAll_fail_failing rest a1 H1). }
  cbv zeta. rewrite Ha'.
  split; [exact H1|]. split; [exact H2|]. split; [exact H3|].
  unfold RunTests, successMsg. rewrite H1, H2.
  cbn [RunState_eqb negb fst snd set_status lastState timeSuccess].
  repeat split.
Qed.

Lemma failure_streak_measured_from_first_witness :
  snd (RunTests
         (fst (runAll (newWatcher "/go/src")
                 (failed [("exit status 1", 10000000000);
                          ("exit status 1", 40000000000)])))
         None 70400000000)
  = [green "success after 1m0s failures"].
Proof.
  refine (proj1 (proj2 (proj2 (proj2
            (failure_streak_measured_from_first (newWatcher "/go/src")
               "exit status 1" 10000000000
               [("exit status 1", 40000000000)] 70400000000 _))))).
  discriminate.
Defined.

(** X7.  After a streak of passing runs that began at [t1] from a status that
    was not working, the status is working since [t1]; the streak logged
    nothing when the status before it was starting; and the next failing
    run, at [t], logs one red line with the error and the rounded time since
    the first pass of the streak. *)
Theorem success_streak_measured_from_first (a : autotest) (t1 : Z)
  (rest : list Z) (e : string) (t : Z) :
  lastState a <> working ->
  let a' := fst (runAll a (passed (t1 :: rest))) in
  lastState a' = working /\
  timeSuccess a' = t1 /\
  timeFailure a' = timeFailure a /\
  (lastState a = starting -> snd (runAll a (passed (t1 :: rest))) = []) /\
  snd (RunTests a' (Some e) t)
  = [red ("error: " ++ e ++ " ("
            ++ Time.String_ (round (Time.Since t t1) Time.Second)
            ++ " success)")%string] /\
  lastState (fst (RunTests a' (Some e) t)) = failing /\
  timeFailure (fst (RunTests a' (Some e) t)) = t.
Proof.
  intros Hs.
  set (a1 := fst (RunTests a None t1)).
  assert (H1 : lastState a1 = working) by reflexivity.
  assert (H2 : timeSuccess a1 = t1).
  { unfold a1, RunTests. cbn [fst set_status timeSuccess].
    destruct (lastState a); [reflexivity|congruence|reflexivity]. }
  assert (H3 : timeFailure a1 = timeFailure a) by reflexivity.
  assert (Hrun : runAll a (passed (t1 :: rest))
                 = (a1, snd (RunTests a None t1))).
  { change (passed (t1 :: rest)) with ((None, t1) :: passed rest).
    rewrite runAll_cons. fold a1.
    rewrite (runAll_pass_working rest a1 H1). cbn [fst snd].
    now rewrite app_nil_r. }
  cbv zeta. rewrite Hrun. cbn [fst snd].
  split; [exact H1|]. split; [exact H2|]. split; [exact H3|]. split.
  - intros Hst. unfold RunTests, successMsg. now rewrite Hst.
  - unfold RunTests, failureMsg. rewrite H1, H2.
    cbn [RunState_eqb negb fst snd set_status lastState timeFailure].
    repeat split.
Qed.

Lemma success_streak_measured_from_first_witness :
  snd (RunTests
         (fst (runAll (newWatcher "/go/src")
                 (passed [10000000000; 40000000000])))
         (Some "exit status 1") 14500000000)
  = [red "error: exit status 1 (5s success)"].
Proof.
  refine (proj1 (proj2 (proj2 (proj2 (proj2
            (success_streak_measured_from_first (newWatcher "/go/src")
               10000000000 [40000000000] "exit status 1" 14500000000 _)))))).
  discriminate.
Defined.

(** ** More on the watch list and the classifier *)

Lemma set_paths_same (a : autotest) : set_paths a (paths a) = a.
Proof. now destruct a. Qed.

Lemma set_paths_twice (a : autotest) (l1 l2 : list string) :
  set_paths (set_paths a l1) l2 = set_paths a l2.
Proof. reflexivity. Qed.

Lemma copyAt_length {A : Type} (dst src : list A) :
  forall i, List.length (copyAt dst i src) = List.length dst.
Proof.
  revert src. induction dst as [|x dst IH]; intros src i; [reflexivity|].
  destruct i as [|i]; simpl.
  - destruct src as [|y src]; [reflexivity|]. simpl. now rewrite IH.
  - now rewrite IH.
Qed.

Lemma framed_refl (a : autotest) : framed a a 0 0.
Proof.
  unfold framed. rewrite set_paths_same. repeat split; lia.
Qed.

Lemma framed_trans (a b c : autotest) (d1 u1 d2 u2 : nat) :
  framed a b d1 u1 -> framed b c d2 u2 -> framed a c (d1 + d2) (u1 + u2).
Proof.
  intros (E1 & L1 & U1) (E2 & L2 & U2). unfold framed.
  split; [|split; lia].
  rewrite E2 at 1. rewrite E1. reflexivity.
Qed.

Lemma framed_weaken (a b : autotest) (d u d' u' : nat) :
  (d <= d')%nat -> (u <= u')%nat -> framed a b d u -> framed a b d' u'.
Proof. intros Hd Hu (E & L & U). unfold framed. repeat split; [exact E|lia|lia]. Qed.

Lemma Remove_framed (os : OS) (a : autotest) (p : string) :
  framed a (fst (Remove os a p)) 1 0.
Proof.
  unfold Remove. cbn [fst].
  destruct (indexOf p (paths a) 0) as [i|] eqn:E.
  - unfold framed. cbn [paths set_paths]. split; [reflexivity|].
    unfold deleteAt. rewrite length_firstn, copyAt_length. lia.
  - apply (framed_weaken a a 0 0); [lia|lia|apply framed_refl].
Qed.

Lemma onCreate_ok (os : OS) (a : autotest) (f : string) (m : bool) :
  flowOK a 0 1 (onCreate os a f m).
Proof.
  unfold onCreate, Add.
  destruct (os_Stat os f) as [[|]|e]; cbn [flowOK].
  - destruct (fs_Add os f); cbn [flowOK]; [exact I|].
    unfold framed. cbn [paths set_paths]. split; [reflexivity|].
    rewrite length_app. simpl. lia.
  - apply (framed_weaken a a 0 0); [lia|lia|apply framed_refl].
  - destruct (Strings.HasSuffix e noSuchFile); cbn [flowOK];
      (split; [apply (framed_weaken a a 0 0); [lia|lia|apply framed_refl]
              |reflexivity]).
Qed.

Lemma onRemove_ok (os : OS) (a : autotest) (f : string) (m : bool) :
  flowOK a 1 0 (onRemove os a f m).
Proof.
  unfold onRemove. pose proof (Remove_framed os a f) as H.
  destruct (Remove os a f) as [a' [e|]]; cbn [fst] in H; cbn [flowOK].
  - destruct (Strings.HasPrefix e notWatched); cbn [negb flowOK]; auto.
  - exact H.
Qed.

Lemma onWrite_ok (a : autotest) (f : string) (m : bool) :
  flowOK a 0 0 (onWrite a f m).
Proof.
  unfold onWrite. destruct (skipFile _ _); cbn [flowOK]; apply framed_refl.
Qed.

Lemma flowOK_weaken (a : autotest) (d u d' u' : nat) (f : Flow) :
  (d <= d')%nat -> (u <= u')%nat -> flowOK a d u f -> flowOK a d' u' f.
Proof.
  intros Hd Hu. destruct f as [a' m|a' m e|msg]; cbn [flowOK]; [| |auto].
  - now apply framed_weaken.
  - intros [H1 H2]. split; [now apply (framed_weaken a a' d u)|exact H2].
Qed.

Lemma andThen_ok (a : autotest) (d1 u1 d2 u2 : nat) (f : Flow)
  (k : autotest -> bool -> Flow) :
  flowOK a d1 u1 f ->
  (forall a1 m1, flowOK a1 d2 u2 (k a1 m1)) ->
  flowOK a (d1 + d2) (u1 + u2) (andThen f k).
Proof.
  intros Hf Hk. destruct f as [a1 m1|a1 m1 e1|msg]; cbn [andThen].
  - cbn [flowOK] in Hf. specialize (Hk a1 m1).
    destruct (k a1 m1) as [a2 m2|a2 m2 e2|msg2]; cbn [flowOK] in *.
    + now apply (framed_trans a a1 a2).
    + destruct Hk as [Hk1 Hk2]. split; [|exact Hk2].
      now apply (framed_trans a a1 a2).
    + exact I.
  - apply (flowOK_weaken a d1 u1); [lia|lia|exact Hf].
  - exact I.
Qed.

Lemma handleEventFlow_ok (os : OS) (a : autotest) (ev : Fsnotify.Event) :
  flowOK a 1 1 (handleEventFlow os a ev).
Proof.
  unfold handleEventFlow.
  apply (andThen_ok a 0 1 1 0).
  { destruct (Fsnotify.has _ Fsnotify.Create);
      [apply onCreate_ok|apply (flowOK_weaken a 0 0); [lia|lia|apply framed_refl]]. }
  intros a1 m1. apply (andThen_ok a1 1 0 0 0).
  { destruct (Fsnotify.has _ Fsnotify.Remove);
      [apply onRemove_ok|apply (flowOK_weaken a1 0 0); [lia|lia|apply framed_refl]]. }
  intros a2 m2. apply (andThen_ok a2 0 0 0 0).
  { destruct (Fsnotify.has _ Fsnotify.Write);
      [apply onWrite_ok|apply framed_refl]. }
  intros a3 m3. cbn [flowOK]. split; [apply framed_refl|congruence].
Qed.

(** X8.  Whatever the event and whatever the operating system answers, when
    [handleEvent] returns it has changed nothing of the session but the
    tracked list, the list is at most one entry longer or shorter, and a
    returned error comes with a false flag. *)
Theorem handleEvent_touches_only_paths (os : OS) (a a' : autotest)
  (ev : Fsnotify.Event) (m : bool) (e : error) :
  handleEvent os a ev = Ret (a', (m, e)) ->
  a' = set_paths a (paths a') /\
  (List.length (paths a) <= List.length (paths a') + 1)%nat /\
  (List.length (paths a') <= List.length (paths a) + 1)%nat /\
  (e <> None -> m = false).
Proof.
  unfold handleEvent. pose proof (handleEventFlow_ok os a ev) as H.
  destruct (handleEventFlow os a ev) as [a1 m1|a1 m1 e1|msg];
    cbn [flowOK] in H; [| |discriminate].
  - intros E. injection E as <- <- <-.
    destruct H as (H1 & H2 & H3). repeat split; auto. congruence.
  - intros E. injection E as <- <- <-.
    destruct H as ((H1 & H2 & H3) & H4). repeat split; auto.
Qed.

Lemma handleEvent_touches_only_paths_witness :
  (List.length (paths tracksTwice)
   <= List.length (paths (set_paths tracksTwice ["/go/src/d"])) + 1)%nat.
Proof.
  apply (handleEvent_touches_only_paths osFine tracksTwice
           (set_paths tracksTwice ["/go/src/d"])
           {| Fsnotify.Name := "/go/src/d"; Fsnotify.Op := Fsnotify.Remove |}
           true None).
  reflexivity.
Defined.

Lemma has_masked (op mask bit : Z) :
  Z.land mask bit = bit -> Z.land op mask = 0 -> Fsnotify.has op bit = false.
Proof.
  intros Hb H0. unfold Fsnotify.has.
  rewrite <- Hb, Z.land_assoc, H0. reflexivity.
Qed.

(** X9.  An event that carries none of the create, write and remove bits (a
    rename, an attribute change) is no modification, no error, and leaves
    the session alone, whatever the operating system would answer. *)
Theorem other_bits_are_ignored (os : OS) (a : autotest)
  (ev : Fsnotify.Event) :
  Z.land (Fsnotify.Op ev)
         (Z.lor Fsnotify.Create (Z.lor Fsnotify.Write Fsnotify.Remove)) = 0 ->
  handleEvent os a ev = Ret (a, (false, None)).
Proof.
  intros H. unfold handleEvent, handleEventFlow.
  rewrite (has_masked (Fsnotify.Op ev) 7 Fsnotify.Create eq_refl H).
  rewrite (has_masked (Fsnotify.Op ev) 7 Fsnotify.Remove eq_refl H).
  rewrite (has_masked (Fsnotify.Op ev) 7 Fsnotify.Write eq_refl H).
  reflexivity.
Qed.

Lemma other_bits_are_ignored_witness :
  handleEvent osFull tracksOne
    {| Fsnotify.Name := "/go/src/d";
       Fsnotify.Op := Z.lor Fsnotify.Rename Fsnotify.Chmod |}
  = Ret (tracksOne, (false, None)).
Proof.
  apply (other_bits_are_ignored osFull tracksOne
           {| Fsnotify.Name := "/go/src/d";
              Fsnotify.Op := Z.lor Fsnotify.Rename Fsnotify.Chmod |}).
  reflexivity.
Defined.

Lemma skipFile_existsb (res : list Regexp) (base : string) :
  skipFile res base = existsb (fun re => MatchString re base) res.
Proof.
  induction res as [|re res IH]; [reflexivity|]. simpl.
  rewrite IH. now destruct (MatchString re base).
Qed.

(** X10.  An event with the write bit and neither the create nor the remove bit
    is a modification exactly when no pattern of [IgnoreFiles] matches the
    base name of its path; it is never an error, never changes the session
    and does not consult the operating system. *)
Theorem written_event_ignored_by_pattern (os : OS) (a : autotest)
  (ev : Fsnotify.Event) :
  Fsnotify.has (Fsnotify.Op ev) Fsnotify.Create = false ->
  Fsnotify.has (Fsnotify.Op ev) Fsnotify.Remove = false ->
  Fsnotify.has (Fsnotify.Op ev) Fsnotify.Write = true ->
  handleEvent os a ev
  = Ret (a, (negb (existsb
                     (fun re => MatchString re
                                  (Filepath.Base (Fsnotify.Name ev)))
                     (IgnoreFiles a)),
             None)).
Proof.
  intros Hc Hr Hw. unfold handleEvent, handleEventFlow.
  rewrite Hc, Hr, Hw. cbn [andThen]. rewrite onWrite_flag.
  now rewrite skipFile_existsb.
Qed.

Lemma written_event_ignored_by_pattern_witness :
  handleEvent osFull (newWatcher "/go/src")
    {| Fsnotify.Name := "/go/src/pkg/.main.go.swp";
       Fsnotify.Op := Z.lor Fsnotify.Write Fsnotify.Chmod |}
  = Ret (newWatcher "/go/src", (false, None)).
Proof.
  apply (written_event_ignored_by_pattern osFull (newWatcher "/go/src")
           {| Fsnotify.Name := "/go/src/pkg/.main.go.swp";
              Fsnotify.Op := Z.lor Fsnotify.Write Fsnotify.Chmod |});
    reflexivity.
Defined.

(** X11.  When the watcher refuses a removal with an error that is not the
    tolerated one, the classifier returns that error with a false flag and
    does not look at the write bit; the tracked list has lost the first
    occurrence of the path all the same, because [Remove] updates the list
    before it asks the watcher. *)
Theorem failed_removal_still_untracks (os : OS) (a : autotest)
  (ev : Fsnotify.Event) (e : string) :
  Fsnotify.has (Fsnotify.Op ev) Fsnotify.Create = false ->
  Fsnotify.has (Fsnotify.Op ev) Fsnotify.Remove = true ->
  fs_Remove os (Fsnotify.Name ev) = Some e ->
  Strings.HasPrefix e notWatched = false ->
  exists a',
    handleEvent os a ev = Ret (a', (false, Some e)) /\
    (forall l1 l2, paths a = l1 ++ Fsnotify.Name ev :: l2 ->
                   ~ In (Fsnotify.Name ev) l1 -> paths a' = l1 ++ l2) /\
    (~ In (Fsnotify.Name ev) (paths a) -> a' = a).
Proof.
  intros Hc Hr He Hp.
  exists (fst (Remove os a (Fsnotify.Name ev))). split; [|split].
  - unfold handleEvent, handleEventFlow. rewrite Hc, Hr. cbn [andThen].
    unfold onRemove.
    pose proof (Remove_error os a (Fsnotify.Name ev)) as Hs.
    destruct (Remove os a (Fsnotify.Name ev)) as [a1 e1].
    cbn [fst snd] in *. rewrite He in Hs. subst e1. rewrite Hp. reflexivity.
  - intros l1 l2. apply Remove_paths_first.
  - apply Remove_paths_absent.
Qed.

Lemma failed_removal_still_untracks_witness :
  exists a',
    handleEvent
      {| os_Stat := fun _ => StatInfo true;
         fs_Add := fun _ => None;
         fs_Remove := fun _ => Some "invalid argument" |}
      tracksOne
      {| Fsnotify.Name := "/go/src/d"; Fsnotify.Op := Fsnotify.Remove |}
    = Ret (a', (false, Some "invalid argument")) /\
    paths a' = [].
Proof.
  destruct (failed_removal_still_untracks
              {| os_Stat := fun _ => StatInfo true;
                 fs_Add := fun _ => None;
                 fs_Remove := fun _ => Some "invalid argument" |}
              tracksOne
              {| Fsnotify.Name := "/go/src/d"; Fsnotify.Op := Fsnotify.Remove |}
              "invalid argument" eq_refl eq_refl eq_refl eq_refl)
    as (a' & H & Hl & _).
  exists a'. split; [exact H|].
  apply (Hl [] []); [reflexivity|]. simpl. tauto.
Defined.

(** X12.  [Add] followed by [Remove] of the same path: when the path was not
    tracked before, the session is back where it was; when it was, the
    earlier entry is the one that goes and the path ends up last in the
    list. *)
Theorem Add_then_Remove (osA osR : OS) (a a1 : autotest) (p : string) :
  Add osA a p = Ret (a1, None) ->
  (~ In p (paths a) -> fst (Remove osR a1 p) = a) /\
  (forall l1 l2, paths a = l1 ++ p :: l2 -> ~ In p l1 ->
                 paths (fst (Remove osR a1 p)) = l1 ++ l2 ++ [p]).
Proof.
  unfold Add. destruct (fs_Add osA p); [discriminate|].
  intros E. injection E as <-. split.
  - intros Hn.
    destruct (Remove_framed osR (set_paths a (paths a ++ [p])) p) as [E _].
    rewrite E.
    rewrite (Remove_paths_first osR (set_paths a (paths a ++ [p])) p
               (paths a) [] eq_refl Hn).
    rewrite app_nil_r. rewrite set_paths_twice. apply set_paths_same.
  - intros l1 l2 Hp Hn.
    rewrite (Remove_paths_first osR _ p l1 (l2 ++ [p])); [reflexivity| |exact Hn].
    cbn [paths set_paths]. rewrite Hp, <- app_assoc. reflexivity.
Qed.

Lemma Add_then_Remove_witness :
  fst (Remove osFine
         (set_paths tracksOne (paths tracksOne ++ ["/go/src/new"]))
         "/go/src/new")
  = tracksOne.
Proof.
  refine (proj1 (Add_then_Remove osFine osFine tracksOne
                   (set_paths tracksOne (paths tracksOne ++ ["/go/src/new"]))
                   "/go/src/new" eq_refl) _).
  simpl. intros [E|[]]. discriminate.
Defined.

(** ** More on the monitoring loop *)

Lemma RunTests_settle (a : autotest) (e : error) (t : Z) :
  SettleTime (fst (RunTests a e t)) = SettleTime a.
Proof. now destruct e. Qed.

Lemma spacedFrom_weaken (s lo lo' : Z) (ts : list Z) :
  lo <= lo' -> spacedFrom s lo' ts -> spacedFrom s lo ts.
Proof.
  destruct ts as [|t ts]; simpl; [auto|]. intros H [H1 H2]. split; [lia|auto].
Qed.

Lemma launches_spaced_gen (env : Env) (s : Z) (fuel : nat) :
  0 <= s ->
  forall a now m inputs,
    SettleTime a = s ->
    spacedFrom s now (triggers (monitorChanges fuel env a now m inputs)).
Proof.
  intros Hs. induction fuel as [|fuel IH]; intros a now m inputs Ha;
    [exact I|].
  assert (Htimer :
            spacedFrom s now
              (triggers
                 (if m then
                    Triggered (now + SettleTime a) ::
                      monitorChanges fuel env
                        (fst (RunTests a
                                (handleModifications env a (now + SettleTime a))
                                (now + SettleTime a)))
                        (now + SettleTime a) false inputs
                  else monitorChanges fuel env a (now + SettleTime a) m inputs))).
  { destruct m; cbn [triggers spacedFrom]; rewrite Ha.
    - split; [lia|]. apply IH. now rewrite RunTests_settle.
    - apply (spacedFrom_weaken s now (now + s)); [lia|]. now apply IH. }
  destruct inputs as [|i rest].
  - rewrite monitorChanges_timer by exact I. exact Htimer.
  - destruct (takes env a now i) eqn:Htk.
    + rewrite (monitorChanges_input _ _ _ _ _ _ _ Htk).
      pose proof (Z.le_max_l now (at_ i)) as Hmax.
      destruct (what i) as [|e|ev os]; [exact I| |].
      * cbn [triggers].
        apply (spacedFrom_weaken s now (Z.max now (at_ i)) _ Hmax).
        now apply IH.
      * destruct (handleEvent os a ev) as [[a1 [md [e|]]]|msg] eqn:He;
          [| |exact I]; cbn [triggers];
          apply (spacedFrom_weaken s now (Z.max now (at_ i)) _ Hmax);
          apply IH; rewrite <- Ha; apply (handleEvent_settle _ _ _ _ _ He).
    + rewrite monitorChanges_timer by exact Htk. exact Htimer.
Qed.

(** X13.  Whatever arrives and whenever, the loop does not launch the tests
    sooner than a settle time after it was entered, and two launches are
    never closer to each other than a settle time. *)
Theorem launches_are_spaced (env : Env) (fuel : nat) (a : autotest) (now : Z)
  (m : bool) (inputs : list Timed) :
  0 <= SettleTime a ->
  spacedFrom (SettleTime a) now
    (triggers (monitorChanges fuel env a now m inputs)).
Proof. intros Hs. now apply launches_spaced_gen. Qed.

Lemma launches_are_spaced_witness :
  spacedFrom (SettleTime (newWatcher "/go/src")) 0
    (triggers (monitorChanges 20 envGreen (newWatcher "/go/src") 0 false
                 swapChurn)).
Proof.
  apply (launches_are_spaced envGreen 20 (newWatcher "/go/src") 0 false
           swapChurn).
  simpl. lia.
Defined.

(** X14.  The loop launches the tests at most once for what is pending when it
    is entered, and after that at most once per file system event it
    receives: never on its own, and never on source errors or a stop
    request. *)
Theorem launches_bounded_by_notifications (env : Env) (fuel : nat) :
  forall (a : autotest) (now : Z) (m : bool) (inputs : list Timed),
    (List.length (triggers (monitorChanges fuel env a now m inputs))
     <= (if m then 1 else 0) + notifications inputs)%nat.
Proof.
  induction fuel as [|fuel IH]; intros a now m inputs; [simpl; lia|].
  assert (Htimer :
            (List.length
               (triggers
                  (if m then
                     Triggered (now + SettleTime a) ::
                       monitorChanges fuel env
                         (fst (RunTests a
                                 (handleModifications env a (now + SettleTime a))
                                 (now + SettleTime a)))
                         (now + SettleTime a) false inputs
                   else monitorChanges fuel env a (now + SettleTime a) m inputs))
             <= (if m then 1 else 0) + notifications inputs)%nat).
  { destruct m; cbn [triggers List.length].
    - specialize (IH (fst (RunTests a
                             (handleModifications env a (now + SettleTime a))
                             (now + SettleTime a)))
                    (now + SettleTime a) false inputs).
      simpl in IH. lia.
    - apply (IH a (now + SettleTime a) false inputs). }
  destruct inputs as [|i rest].
  - rewrite monitorChanges_timer by exact I. exact Htimer.
  - destruct (takes env a now i) eqn:Htk.
    + rewrite (monitorChanges_input _ _ _ _ _ _ _ Htk).
      cbn [notifications].
      destruct (what i) as [|e|ev os]; [simpl; lia| |].
      * cbn [triggers]. apply IH.
      * destruct (handleEvent os a ev) as [[a1 [md [e|]]]|msg];
          [| |simpl; lia]; cbn [triggers].
        -- specialize (IH a1 (Z.max now (at_ i)) m rest). lia.
        -- specialize (IH a1 (Z.max now (at_ i))
                         (if md then true else m) rest).
           destruct md, m; simpl in *; lia.
    + rewrite monitorChanges_timer by exact Htk. exact Htimer.
Qed.

(** X15.  A stop request that reaches the loop within a burst ends it: the
    loop signals [Finished] at the arrival of the request and has launched
    nothing, whatever modifications were pending. *)
Theorem stop_cancels_pending (env : Env) (l : list Timed) :
  forall (fuel : nat) (a : autotest) (now : Z) (m : bool) (stop : Timed)
         (rest : list Timed) (a' : autotest) (m' : bool),
    what stop = Stop ->
    burst env a now (l ++ [stop]) ->
    replay a m l = Some (a', m') ->
    triggers (monitorChanges fuel env a now m (l ++ stop :: rest)) = [] /\
    ((List.length l < fuel)%nat ->
     exists logs,
       monitorChanges fuel env a now m (l ++ stop :: rest)
       = logs ++ [Finished (at_ stop)]).
Proof.
  induction l as [|i l IH]; intros fuel a now m stop rest a' m' Hst Hb Hr.
  - destruct Hb as (Hle & Htk & _). cbn [app].
    destruct fuel as [|fuel]; [split; [reflexivity|simpl; lia]|].
    rewrite (monitorChanges_input _ _ _ _ _ _ _ Htk), Hst.
    rewrite Z.max_r by exact Hle.
    split; [reflexivity|]. intros _. now exists [].
  - destruct Hb as (Hle & Htk & Hb). cbn [app].
    destruct fuel as [|fuel]; [split; [reflexivity|simpl; lia]|].
    rewrite (monitorChanges_input _ _ _ _ _ _ _ Htk).
    rewrite Z.max_r by exact Hle.
    cbn [replay] in Hr.
    destruct (what i) as [|e|ev os]; [discriminate| |].
    + destruct (IH fuel a (at_ i) m stop rest a' m' Hst Hb Hr) as [H1 H2].
      cbn [triggers]. split; [exact H1|].
      intros Hf. destruct H2 as [logs ->]; [simpl in Hf; lia|].
      now exists (LoggedError (at_ i) e :: logs).
    + destruct (handleEvent os a ev) as [[a1 [md [e|]]]|msg] eqn:He;
        [| |discriminate].
      * pose proof (burst_settle env a a1 (l ++ [stop])
                      (handleEvent_settle _ _ _ _ _ He) _ Hb) as Hb1.
        destruct (IH fuel a1 (at_ i) m stop rest a' m' Hst Hb1 Hr) as [H1 H2].
        cbn [triggers]. split; [exact H1|].
        intros Hf. destruct H2 as [logs ->]; [simpl in Hf; lia|].
        now exists (LoggedError (at_ i) e :: logs).
      * pose proof (burst_settle env a a1 (l ++ [stop])
                      (handleEvent_settle _ _ _ _ _ He) _ Hb) as Hb1.
        destruct (IH fuel a1 (at_ i) (if md then true else m) stop rest
                    a' m' Hst Hb1 Hr) as [H1 H2].
        split; [exact H1|].
        intros Hf. apply H2. simpl in Hf. lia.
Qed.

Lemma stop_cancels_pending_witness :
  triggers (monitorChanges 9 envGreen (newWatcher "/go/src") 0 false
              ([writeOf 1000000000 "/go/src/pkg/main.go"]
                 ++ {| at_ := 2500000000; what := Stop |}
                 :: [writeOf 2600000000 "/go/src/pkg/main.go"]))
  = [].
Proof.
  refine (proj1 (stop_cancels_pending envGreen
                   [writeOf 1000000000 "/go/src/pkg/main.go"] 9
                   (newWatcher "/go/src") 0 false
                   {| at_ := 2500000000; what := Stop |}
                   [writeOf 2600000000 "/go/src/pkg/main.go"]
                   (newWatcher "/go/src") true eq_refl _ eq_refl)).
  simpl. repeat split; try lia; reflexivity.
Defined.

(** ** Recursive registration *)

Lemma walk_Dir {S : Type}
  (fn : S -> string -> option FileInfo -> option WalkError
        -> Result (S * option WalkError))
  (s : S) (path name : string) (es : list (string * Node)) :
  walk fn s path name (Dir es)
  = match fn s path (Some {| info_Name := name; info_IsDir := true |}) None
    with
    | Fatal m => Fatal m
    | Ret (s1, Some e1) => Ret (s1, Some e1)
    | Ret (s1, None) => walkEntries fn s1 path es
    end.
Proof.
  cbn [walk].
  destruct (fn s path (Some {| info_Name := name; info_IsDir := true |}) None)
    as [[s1 [e1|]]|m]; try reflexivity.
  revert s1. induction es as [|[nm child] es IH]; intros s1; [reflexivity|].
  cbn [walkEntries].
  destruct (walk fn s1 (Join path nm) nm child) as [[s2 [e|]]|m];
    try reflexivity.
  - destruct (stops child e); [reflexivity|apply IH].
  - apply IH.
Qed.

Lemma allDirs_Dir (path : string) (es : list (string * Node)) :
  allDirs path (Dir es) = path :: allDirsOf path es.
Proof.
  cbn [allDirs]. f_equal.
  induction es as [|[nm child] es IH]; [reflexivity|].
  cbn [allDirsOf]. now rewrite IH.
Qed.

Lemma clean_Dir (ign : list string) (name : string)
  (es : list (string * Node)) :
  clean ign name (Dir es)
  = negb (existsb (String.eqb name) ign) && cleanAll ign es.
Proof.
  cbn [clean]. f_equal.
  induction es as [|[nm child] es IH]; [reflexivity|].
  cbn [cleanAll]. now rewrite IH.
Qed.

Lemma prune_Dir (ign : list string) (name : string)
  (es : list (string * Node)) :
  prune ign name (Dir es)
  = if existsb (String.eqb name) ign then Dir [] else Dir (pruneAll ign es).
Proof.
  cbn [prune]. destruct (existsb (String.eqb name) ign); [reflexivity|].
  f_equal.
  induction es as [|[nm child] es IH]; [reflexivity|].
  cbn [pruneAll]. now rewrite IH.
Qed.

Lemma walkEntries_app {S : Type}
  (fn : S -> string -> option FileInfo -> option WalkError
        -> Result (S * option WalkError))
  (path : string) (l1 l2 : list (string * Node)) :
  forall s,
    walkEntries fn s path (l1 ++ l2)
    = match walkEntries fn s path l1 with
      | Ret (s1, None) => walkEntries fn s1 path l2
      | r => r
      end.
Proof.
  induction l1 as [|[nm child] l1 IH]; intros s; [reflexivity|].
  cbn [app walkEntries].
  destruct (walk fn s (Join path nm) nm child) as [[s2 [e|]]|m];
    try reflexivity.
  - destruct (stops child e); [reflexivity|apply IH].
  - apply IH.
Qed.

(** What the visit of one entry does to the session. *)
Lemma visit_cases (os : OS) (a : autotest) (p : string)
  (info : option FileInfo) (err : option WalkError) (a' : autotest)
  (r : option WalkError) :
  visit os a p info err = Ret (a', r) ->
  (a' = a) \/
  (a' = set_paths a (paths a ++ [p]) /\ r = None /\
   exists nm, info = Some {| info_Name := nm; info_IsDir := true |}).
Proof.
  unfold visit, Add.
  destruct err as [e|]; [intros E; injection E as <- _; now left|].
  destruct info as [[nm d]|]; [|discriminate]. cbn [info_Name info_IsDir].
  destruct (ignoredDir a nm); [intros E; injection E as <- _; now left|].
  destruct d; [|intros E; injection E as <- _; now left].
  destruct (fs_Add os p); [discriminate|].
  intros E. injection E as <- <-. right. repeat split. now exists nm.
Qed.

Lemma grows_step (a : autotest) (l1 l2 : list string) :
  set_paths (set_paths a (paths a ++ l1))
            (paths (set_paths a (paths a ++ l1)) ++ l2)
  = set_paths a (paths a ++ l1 ++ l2).
Proof. cbn [paths set_paths]. now rewrite app_assoc. Qed.

Lemma grows_nil (a : autotest) : a = set_paths a (paths a ++ []).
Proof. now rewrite app_nil_r, set_paths_same. Qed.

Lemma walk_grows (os : OS) (n : Node) :
  forall a path name a' r,
    walk (visit os) a path name n = Ret (a', r) ->
    exists added,
      a' = set_paths a (paths a ++ added) /\ incl added (allDirs path n).
Proof.
  induction n as [|es IH|e] using Node_ind2; intros a path name a' r H.
  - cbn [walk] in H. apply visit_cases in H.
    destruct H as [->|(_ & _ & nm & Hi)]; [|discriminate].
    exists []. split; [apply grows_nil|apply incl_nil_l].
  - rewrite walk_Dir in H. rewrite allDirs_Dir.
    destruct (visit os a path
                (Some {| info_Name := name; info_IsDir := true |}) None)
      as [[a1 [e1|]]|m] eqn:Hv; [| |discriminate].
    + injection H as <- <-. apply visit_cases in Hv.
      destruct Hv as [->|(_ & Hr & _)]; [|discriminate].
      exists []. split; [apply grows_nil|apply incl_nil_l].
    + assert (Ha1 : exists l0, a1 = set_paths a (paths a ++ l0)
                               /\ incl l0 [path]).
      { apply visit_cases in Hv. destruct Hv as [->|(-> & _ & _)].
        - exists []. split; [apply grows_nil|apply incl_nil_l].
        - exists [path]. split; [reflexivity|apply incl_refl]. }
      destruct Ha1 as (l0 & -> & Hl0).
      assert (Hes : forall es0, Forall (fun ne => forall a path name a' r,
                        walk (visit os) a path name (snd ne) = Ret (a', r) ->
                        exists added, a' = set_paths a (paths a ++ added)
                                      /\ incl added (allDirs path (snd ne))) es0 ->
                forall b b' r0,
                  walkEntries (visit os) b path es0 = Ret (b', r0) ->
                  exists added, b' = set_paths b (paths b ++ added)
                                /\ incl added (allDirsOf path es0)).
      { clear. induction es0 as [|[nm child] es0 IHes]; intros HF b b' r0 Hw.
        - injection Hw as <- _. exists []. split; [apply grows_nil|apply incl_nil_l].
        - inversion HF as [|x l Hx Hl]; subst. cbn [snd] in Hx.
          cbn [walkEntries] in Hw. cbn [allDirsOf].
          destruct (walk (visit os) b (Join path nm) nm child)
            as [[b2 [e|]]|m] eqn:Hc; [| |discriminate].
          + destruct (Hx _ _ _ _ _ Hc) as (l1 & -> & Hi1).
            destruct (stops child e).
            * injection Hw as <- _. exists l1. split; [reflexivity|].
              now apply incl_appl.
            * destruct (IHes Hl _ _ _ Hw) as (l2 & -> & Hi2).
              exists (l1 ++ l2). split; [apply grows_step|].
              apply incl_app; [now apply incl_appl|now apply incl_appr].
          + destruct (Hx _ _ _ _ _ Hc) as (l1 & -> & Hi1).
            destruct (IHes Hl _ _ _ Hw) as (l2 & -> & Hi2).
            exists (l1 ++ l2). split; [apply grows_step|].
            apply incl_app; [now apply incl_appl|now apply incl_appr]. }
      destruct (Hes es IH _ _ _ H) as (l2 & -> & Hi2).
      exists (l0 ++ l2). split; [apply grows_step|].
      apply incl_app.
      * intros x Hx. apply Hl0 in Hx. destruct Hx as [<-|[]]. now left.
      * now apply incl_tl.
  - cbn [walk] in H. apply visit_cases in H.
    destruct H as [->|(_ & _ & nm & Hi)]; [|discriminate].
    exists []. split; [apply grows_nil|apply incl_nil_l].
Qed.

Lemma AddRecursive_appends_dirs_aux (os : OS) (a a' : autotest)
  (root : string) (tree : Node) (e : error) :
  AddRecursive os a root tree = Ret (a', e) ->
  exists added,
    a' = set_paths a (paths a ++ added) /\
    incl added (allDirs root tree).
Proof.
  unfold AddRecursive, Walk. intros H.
  destruct (walk (visit os) a root (Filepath.Base root) tree)
    as [[a1 r]|m] eqn:Hw; [|discriminate].
  assert (Ha : a' = a1).
  { destruct r as [[|msg]|]; now injection H as <- _. }
  subst a1. apply (walk_grows os tree _ _ _ _ _ Hw).
Qed.



Lemma walk_clean (os : OS) (n : Node) :
  (forall p, fs_Add os p = None) ->
  forall a path name,
    clean (IgnoreDirs a) name n = true ->
    walk (visit os) a path name n
    = Ret (set_paths a (paths a ++ allDirs path n), None).
Proof.
  intros Hfs.
  induction n as [|es IH|e] using Node_ind2; intros a path name Hc.
  - cbn [clean] in Hc. rewrite andb_true_r in Hc.
    cbn [walk allDirs]. unfold visit, ignoredDir. cbn [info_Name info_IsDir].
    apply negb_true_iff in Hc. rewrite Hc. now rewrite <- grows_nil.
  - rewrite clean_Dir in Hc. apply andb_true_iff in Hc. destruct Hc as [Hn Hc].
    apply negb_true_iff in Hn.
    rewrite walk_Dir, allDirs_Dir.
    unfold visit at 1, ignoredDir, Add. cbn [info_Name info_IsDir].
    rewrite Hn, Hfs.
    assert (Hes : forall es0,
               Forall (fun ne => forall a path name,
                         clean (IgnoreDirs a) name (snd ne) = true ->
                         walk (visit os) a path name (snd ne)
                         = Ret (set_paths a (paths a ++ allDirs path (snd ne)),
                                None)) es0 ->
               forall b,
                 cleanAll (IgnoreDirs b) es0 = true ->
                 walkEntries (visit os) b path es0
                 = Ret (set_paths b (paths b ++ allDirsOf path es0), None)).
    { clear - Hfs. induction es0 as [|[nm child] es0 IHes]; intros HF b Hb.
      - cbn [walkEntries allDirsOf]. now rewrite <- grows_nil.
      - inversion HF as [|x l Hx Hl]; subst. cbn [snd] in Hx.
        cbn [cleanAll] in Hb. apply andb_true_iff in Hb.
        destruct Hb as [Hb1 Hb2].
        cbn [walkEntries allDirsOf]. rewrite (Hx b _ nm Hb1).
        rewrite (IHes Hl) by exact Hb2.
        now rewrite grows_step. }
    rewrite (Hes es IH) by exact Hc.
    now rewrite grows_step.
  - cbn [clean] in Hc. now rewrite andb_false_r in Hc.
Qed.



Lemma walk_IgnoreDirs (os : OS) (n : Node) (a a' : autotest)
  (path name : string) (r : option WalkError) :
  walk (visit os) a path name n = Ret (a', r) ->
  IgnoreDirs a' = IgnoreDirs a.
Proof.
  intros H. destruct (walk_grows os n _ _ _ _ _ H) as (l & -> & _).
  reflexivity.
Qed.

Lemma stops_prune (ign : list string) (nm : string) (child : Node)
  (e : WalkError) :
  stops (prune ign nm child) e = stops child e.
Proof.
  destruct child as [|es|msg]; try reflexivity.
  rewrite prune_Dir. now destruct (existsb (String.eqb nm) ign).
Qed.

Lemma walk_prune (os : OS) (n : Node) :
  forall a path name,
    walk (visit os) a path name (prune (IgnoreDirs a) name n)
    = walk (visit os) a path name n.
Proof.
  induction n as [|es IH|e] using Node_ind2; intros a path name;
    try reflexivity.
  rewrite prune_Dir.
  destruct (existsb (String.eqb name) (IgnoreDirs a)) eqn:Hig.
  - rewrite !walk_Dir. unfold visit, ignoredDir. cbn [info_Name info_IsDir].
    now rewrite Hig.
  - rewrite !walk_Dir.
    destruct (visit os a path
                (Some {| info_Name := name; info_IsDir := true |}) None)
      as [[a1 [e1|]]|m] eqn:Hv; try reflexivity.
    assert (Hi : IgnoreDirs a1 = IgnoreDirs a).
    { apply visit_cases in Hv. now destruct Hv as [->|(-> & _)]. }
    rewrite <- Hi. clear Hv Hig Hi.
    revert a1. induction IH as [|[nm child] es0 Hx _ IHes]; intros a1;
      [reflexivity|].
    cbn [snd] in Hx. cbn [pruneAll walkEntries].
    rewrite Hx.
    destruct (walk (visit os) a1 (Join path nm) nm child)
      as [[a2 [e|]]|m] eqn:Hc; try reflexivity.
    + rewrite stops_prune. destruct (stops child e); [reflexivity|].
      rewrite <- (walk_IgnoreDirs _ _ _ _ _ _ _ Hc). apply IHes.
    + rewrite <- (walk_IgnoreDirs _ _ _ _ _ _ _ Hc). apply IHes.
Qed.

(** X18.  Nothing inside a directory with an ignored name plays a part in
    [AddRecursive]: the result is the one for the tree in which every such
    directory is empty.  So nothing under it is tracked, and no entry under
    it that cannot be read makes the walk fail. *)
Theorem AddRecursive_skips_ignored_directories (os : OS) (a : autotest)
  (root : string) (tree : Node) :
  AddRecursive os a root (prune (IgnoreDirs a) (Filepath.Base root) tree)
  = AddRecursive os a root tree.
Proof. unfold AddRecursive, Walk. now rewrite walk_prune. Qed.

Lemma walkEntries_IgnoreDirs (os : OS) (es : list (string * Node)) :
  forall a a' path,
    walkEntries (visit os) a path es = Ret (a', None) ->
    IgnoreDirs a' = IgnoreDirs a.
Proof.
  induction es as [|[nm child] es IH]; intros a a' path H.
  - now injection H as <-.
  - cbn [walkEntries] in H.
    destruct (walk (visit os) a (Join path nm) nm child)
      as [[a2 [e|]]|m] eqn:Hc; [| |discriminate].
    + destruct (stops child e); [discriminate|].
      rewrite (IH _ _ _ H). apply (walk_IgnoreDirs _ _ _ _ _ _ _ Hc).
    + rewrite (IH _ _ _ H). apply (walk_IgnoreDirs _ _ _ _ _ _ _ Hc).
Qed.

(** X19.  A file that bears an ignored name (the [.git] file of a submodule or
    work tree) ends the walk of the directory it is in: the function
    literal answers [SkipDir] for it before it asks whether it is a
    directory, and the entries after it are not visited. *)
Theorem AddRecursive_ignored_file_cuts_directory (os : OS) (a : autotest)
  (root nm : string) (before after : list (string * Node)) :
  ignoredDir a nm = true ->
  AddRecursive os a root (Dir (before ++ (nm, File) :: after))
  = AddRecursive os a root (Dir (before ++ [(nm, File)])).
Proof.
  intros Hig. unfold AddRecursive, Walk. rewrite !walk_Dir.
  destruct (visit os a root
              (Some {| info_Name := Filepath.Base root; info_IsDir := true |})
              None) as [[a1 [e1|]]|m] eqn:Hv; try reflexivity.
  assert (Hi : IgnoreDirs a1 = IgnoreDirs a).
  { apply visit_cases in Hv. now destruct Hv as [->|(-> & _)]. }
  rewrite !walkEntries_app.
  destruct (walkEntries (visit os) a1 root before) as [[a2 [e|]]|m] eqn:Hb;
    try reflexivity.
  assert (Hi2 : IgnoreDirs a2 = IgnoreDirs a)
    by (rewrite <- Hi; apply (walkEntries_IgnoreDirs os before _ _ _ Hb)).
  cbn [walkEntries walk]. unfold visit, ignoredDir. cbn [info_Name info_IsDir].
  unfold ignoredDir in Hig. rewrite Hi2, Hig. reflexivity.
Qed.

Lemma AddRecursive_ignored_file_cuts_directory_witness :
  AddRecursive osFine (newWatcher "/go/src") "/go/src/mod"
    (Dir ([] ++ (".git", File) :: [("cmd", Dir []); ("lib", Dir [])]))
  = AddRecursive osFine (newWatcher "/go/src") "/go/src/mod"
      (Dir ([] ++ [(".git", File)])).
Proof.
  apply (AddRecursive_ignored_file_cuts_directory osFine
           (newWatcher "/go/src") "/go/src/mod" ".git" []
           [("cmd", Dir []); ("lib", Dir [])]).
  reflexivity.
Defined.

Lemma walkEntries_clean (os : OS) (es : list (string * Node)) :
  (forall p, fs_Add os p = None) ->
  forall b path,
    cleanAll (IgnoreDirs b) es = true ->
    walkEntries (visit os) b path es
    = Ret (set_paths b (paths b ++ allDirsOf path es), None).
Proof.
  intros Hfs. induction es as [|[nm child] es IH]; intros b path Hb.
  - cbn [walkEntries allDirsOf]. now rewrite <- grows_nil.
  - cbn [cleanAll] in Hb. apply andb_true_iff in Hb. destruct Hb as [Hb1 Hb2].
    cbn [walkEntries allDirsOf].
    rewrite (walk_clean os child Hfs b _ nm Hb1).
    rewrite IH by exact Hb2. now rewrite grows_step.
Qed.



(** ** The arguments of the test command *)

Lemma copyAt_all {A : Type} (dst src : list A) :
  List.length dst = List.length src -> copyAt dst 0 src = src.
Proof.
  revert src. induction dst as [|x dst IH]; intros [|y src] H;
    try discriminate; [reflexivity|].
  cbn [copyAt]. f_equal. apply IH. simpl in H. lia.
Qed.

Lemma goTestArgs_loop (Rel : string -> string -> string * error)
  (a : autotest) (ps : list string) :
  forall args n,
    fold_left
      (fun (st : list string * nat) (path : string) =>
         let pkg := getPackageName Rel a path in
         if negb (String.eqb pkg "") then (fst st ++ [pkg], S (snd st))
         else st) ps (args, n)
    = (args ++ filter (fun pkg => negb (String.eqb pkg ""))
                 (map (getPackageName Rel a) ps),
       (n + List.length (filter (fun pkg => negb (String.eqb pkg ""))
                           (map (getPackageName Rel a) ps)))%nat).
Proof.
  induction ps as [|p ps IH]; intros args n.
  - cbn. now rewrite app_nil_r, Nat.add_0_r.
  - cbn [fold_left map filter]. cbv beta zeta. cbn [fst snd].
    destruct (negb (String.eqb (getPackageName Rel a p) "")).
    + rewrite IH. rewrite <- app_assoc. cbn [app List.length]. f_equal. lia.
    + apply IH.
Qed.

(** X21.  [go test] is given the word [test], then the test flags in their
    order, then one package name per tracked path in the order of the
    tracked list, a path tracked twice giving its package twice; tracked
    paths for which [filepath.Rel] fails give nothing.  The count logged is
    the number of package names. *)
Theorem goTestArgs_layout (Rel : string -> string -> string * error)
  (a : autotest) :
  let pkgs := filter (fun pkg => negb (String.eqb pkg ""))
                (map (getPackageName Rel a) (paths a)) in
  goTestArgs Rel a = ("test" :: TestFlags a ++ pkgs, List.length pkgs).
Proof.
  cbv zeta. unfold goTestArgs. rewrite goTestArgs_loop.
  cbn [repeat Nat.add setAt copyAt].
  rewrite copyAt_all by apply repeat_length.
  reflexivity.
Qed.

(** ** Debouncing, burst by burst *)

Lemma replay_settle (l : list Timed) :
  forall a m a' m',
    replay a m l = Some (a', m') -> SettleTime a' = SettleTime a.
Proof.
  induction l as [|i l IH]; intros a m a' m' H; cbn [replay] in H.
  - now injection H as <- _.
  - destruct (what i) as [|e|ev os]; [discriminate|now apply (IH _ _ _ _ H)|].
    destruct (handleEvent os a ev) as [[a1 [md [e|]]]|msg] eqn:He;
      [| |discriminate];
      rewrite (IH _ _ _ _ H); apply (handleEvent_settle _ _ _ _ _ He).
Qed.

Lemma bursty_settle (env : Env) (a a' : autotest)
  (bursts : list (list Timed)) :
  SettleTime a' = SettleTime a -> bursty env a bursts -> bursty env a' bursts.
Proof.
  intros Hs. induction bursts as [|b bs IH]; [auto|].
  cbn [bursty]. destruct b as [|i rest]; [auto|].
  intros (H1 & H2 & H3). split; [|split].
  - now apply (burst_settle env a a').
  - destruct bs as [|[|i' b'] bs']; auto.
    now rewrite (takes_settle env a a').
  - now apply IH.
Qed.

(** The loop works through a burst in as many iterations as it has
    inputs, launching nothing, whatever follows the burst. *)
Lemma burst_prefix (env : Env) (l : list Timed) :
  forall fuel a now m a' m' rest,
    burst env a now l ->
    replay a m l = Some (a', m') ->
    triggers (monitorChanges (List.length l + fuel) env a now m (l ++ rest))
    = triggers (monitorChanges fuel env a' (lastAt now l) m' rest).
Proof.
  induction l as [|i l IH]; intros fuel a now m a' m' rest Hb Hr.
  - cbn in Hr. now injection Hr as <- <-.
  - destruct Hb as (Hle & Htk & Hb).
    cbn [List.length Nat.add app lastAt].
    rewrite (monitorChanges_input _ _ _ _ _ _ _ Htk).
    rewrite Z.max_r by exact Hle. cbn [replay] in Hr.
    destruct (what i) as [|e|ev os]; [discriminate| |].
    + cbn [triggers]. now apply IH.
    + destruct (handleEvent os a ev) as [[a1 [md [e|]]]|msg] eqn:He;
        [| |discriminate]; cbn [triggers];
        (apply IH; [|exact Hr]);
        apply (burst_settle env a a1); auto;
        apply (handleEvent_settle _ _ _ _ _ He).
Qed.

Lemma takes_false_later (env : Env) (a : autotest) (now : Z) (i : Timed) :
  takes env a now i = false -> now + SettleTime a <= at_ i.
Proof.
  unfold takes. intros H. apply orb_false_iff in H.
  destruct H as [H _]. now apply Z.ltb_ge in H.
Qed.

Lemma lastAt_cons (x y : Z) (i : Timed) (l : list Timed) :
  lastAt x (i :: l) = lastAt y (i :: l).
Proof. reflexivity. Qed.

Lemma debounce_gen (env : Env) (s : Z) (bursts : list (list Timed)) :
  0 < s ->
  forall a now ts,
    SettleTime a = s ->
    bursty env a bursts ->
    match List.concat bursts with [] => True | i :: _ => now <= at_ i end ->
    schedule env a bursts = Some ts ->
    exists N, forall fuel, (N <= fuel)%nat ->
      triggers (monitorChanges fuel env a now false (List.concat bursts)) = ts.
Proof.
  intros Hs. induction bursts as [|b bs IH]; intros a now ts Ha Hb Hnow Hsch.
  - cbn in Hsch. injection Hsch as <-. exists O. intros fuel _.
    apply idle_forever.
  - cbn [bursty] in Hb. destruct b as [|i rest]; [contradiction|].
    destruct Hb as (Hbu & Hnext & Hbs).
    cbn [List.concat app] in Hnow |- *.
    cbn [schedule] in Hsch.
    destruct (replay a false (i :: rest)) as [[a1 m1]|] eqn:Hr;
      [|discriminate].
    pose proof (replay_settle _ _ _ _ _ Hr) as Ha1.
    rewrite (lastAt_cons 0 (at_ i)) in Hsch. cbn [lastAt] in Hsch.
    destruct (idle_until_first env a i (rest ++ List.concat bs)
                ltac:(rewrite Ha; exact Hs) _ now Hnow eq_refl)
      as (k & now' & Hb' & Htk & Hrun & _).
    assert (Hburst : burst env a now' (i :: rest))
      by (cbn [burst]; split; [lia|split; [exact Htk|exact Hbu]]).
    rewrite Ha in Hsch.
    set (last := lastAt (at_ i) rest) in *.
    assert (Hafter :
              forall fuel,
                triggers (monitorChanges (k + (List.length (i :: rest) + fuel))
                            env a now false (i :: rest ++ List.concat bs))
                = triggers (monitorChanges fuel env a1 last m1 (List.concat bs))).
    { intros fuel. rewrite Hrun.
      change (i :: rest ++ List.concat bs) with ((i :: rest) ++ List.concat bs).
      now rewrite (burst_prefix env (i :: rest) fuel a now' false a1 m1
                     (List.concat bs) Hburst Hr). }
    destruct bs as [|b2 bs2].
    + (* the last burst *)
      cbn [List.concat] in *.
      assert (Hts : ts = if m1 then [last + s] else []).
      { destruct m1; cbn [schedule option_map] in Hsch;
          now injection Hsch as <-. }
      exists (k + (List.length (i :: rest) + 1))%nat. intros fuel Hf.
      replace fuel
        with (k + (List.length (i :: rest) + S (fuel - k - List.length (i :: rest) - 1)))%nat
        by lia.
      rewrite Hafter, Hts.
      destruct m1.
      * rewrite pending_fires_once. now rewrite Ha1, Ha.
      * apply idle_forever.
    + (* another burst follows *)
      cbn [bursty] in Hbs. destruct b2 as [|i2 rest2]; [contradiction|].
      pose proof (takes_false_later env a last i2 Hnext) as Hlater.
      rewrite Ha in Hlater.
      assert (Htk1 : takes env a1 last i2 = false)
        by (now rewrite (takes_settle env a a1)).
      destruct m1.
      * cbn [option_map] in Hsch.
        destruct (schedule env
                    (fst (RunTests a1 (handleModifications env a1 (last + s))
                            (last + s))) ((i2 :: rest2) :: bs2))
          as [ts'|] eqn:Hs2; [|discriminate].
        cbn [option_map] in Hsch. injection Hsch as <-.
        set (a2 := fst (RunTests a1 (handleModifications env a1 (last + s))
                          (last + s))) in *.
        assert (Ha2 : SettleTime a2 = s)
          by (unfold a2; now rewrite RunTests_settle, Ha1).
        destruct (IH a2 (last + s) ts' Ha2) as [N HN].
        { apply (bursty_settle env a a2); [now rewrite Ha2|exact Hbs]. }
        { exact Hlater. }
        { exact Hs2. }
        exists (k + (List.length (i :: rest) + S N))%nat. intros fuel Hf.
        replace fuel
          with (k + (List.length (i :: rest)
                     + S (fuel - k - List.length (i :: rest) - 1)))%nat by lia.
        rewrite Hafter.
        rewrite monitorChanges_timer by exact Htk1.
        cbn [triggers]. rewrite Ha1, Ha. fold a2. f_equal.
        apply HN. lia.
      * destruct (IH a1 (last + s) ts) as [N HN].
        { now rewrite Ha1. }
        { apply (bursty_settle env a a1); [exact Ha1|exact Hbs]. }
        { exact Hlater. }
        { exact Hsch. }
        exists (k + (List.length (i :: rest) + S N))%nat. intros fuel Hf.
        replace fuel
          with (k + (List.length (i :: rest)
                     + S (fuel - k - List.length (i :: rest) - 1)))%nat by lia.
        rewrite Hafter.
        rewrite monitorChanges_timer by exact Htk1.
        rewrite Ha1, Ha. apply HN. lia.
Qed.



(** ** The default ignore pattern *)

Lemma sapp_assoc (a b c : string) :
  ((a ++ b) ++ c = a ++ (b ++ c))%string.
Proof. induction a as [|x a IH]; simpl; [reflexivity|now rewrite IH]. Qed.

Lemma sapp_nil_r (a : string) : (a ++ "" = a)%string.
Proof. induction a as [|x a IH]; simpl; [reflexivity|now rewrite IH]. Qed.

Lemma slen_app (a b : string) :
  Strings.len (a ++ b) = (Strings.len a + Strings.len b)%nat.
Proof.
  unfold Strings.len. induction a as [|x a IH]; simpl; [reflexivity|].
  now rewrite IH.
Qed.

Lemma drop_app (a b : string) : Strings.drop (Strings.len a) (a ++ b) = b.
Proof. induction a as [|x a IH]; simpl; [reflexivity|exact IH]. Qed.

Lemma substring_app (a b : string) :
  String.substring 0 (Strings.len a) (a ++ b) = a.
Proof.
  induction a as [|x a IH]; simpl.
  - now destruct b.
  - now rewrite IH.
Qed.

Lemma split_at (n : nat) :
  forall s, (n <= Strings.len s)%nat ->
            s = (String.substring 0 n s ++ Strings.drop n s)%string.
Proof.
  unfold Strings.len. induction n as [|n IH]; intros s H.
  - destruct s; reflexivity.
  - destruct s as [|c s]; simpl in H; [lia|].
    simpl. f_equal. apply IH. lia.
Qed.

Lemma rev_acc_app (s : string) :
  forall acc, Strings.rev_acc s acc = (Strings.rev_acc s "" ++ acc)%string.
Proof.
  induction s as [|c s IH]; intros acc; simpl; [reflexivity|].
  rewrite (IH (String c acc)), (IH (String c "")).
  now rewrite sapp_assoc.
Qed.

Lemma rev_cons (c : ascii) (s : string) :
  Strings.rev (String c s) = (Strings.rev s ++ String c "")%string.
Proof. unfold Strings.rev. simpl. apply rev_acc_app. Qed.

Lemma rev_app (a b : string) :
  Strings.rev (a ++ b) = (Strings.rev b ++ Strings.rev a)%string.
Proof.
  induction a as [|c a IH].
  - simpl. now rewrite sapp_nil_r.
  - change (String c a ++ b)%string with (String c (a ++ b)).
    rewrite !rev_cons, IH. apply sapp_assoc.
Qed.

Lemma rev_rev (s : string) : Strings.rev (Strings.rev s) = s.
Proof.
  induction s as [|c s IH]; [reflexivity|].
  rewrite rev_cons, rev_app, IH. reflexivity.
Qed.

Lemma lineText_app (a b : string) :
  lineText (a ++ b) = lineText a && lineText b.
Proof.
  induction a as [|c a IH]; simpl; [reflexivity|].
  now rewrite IH, andb_assoc.
Qed.

Lemma lineText_rev (s : string) : lineText (Strings.rev s) = lineText s.
Proof.
  induction s as [|c s IH]; [reflexivity|].
  rewrite rev_cons, lineText_app, IH. simpl.
  rewrite andb_true_r. apply andb_comm.
Qed.

Lemma dotOnLine_intro (r1 r2 : string) :
  lineText r1 = true -> dotOnLine (r1 ++ String "." r2) = true.
Proof.
  induction r1 as [|c r1 IH]; intros H; simpl; [reflexivity|].
  simpl in H. apply andb_true_iff in H. destruct H as [H1 H2].
  apply negb_true_iff in H1. rewrite H1.
  destruct (Ascii.eqb c "."); [reflexivity|now apply IH].
Qed.

Lemma dotOnLine_elim (r : string) :
  dotOnLine r = true ->
  exists r1 r2, r = (r1 ++ String "." r2)%string /\ lineText r1 = true.
Proof.
  induction r as [|c r IH]; simpl; [discriminate|].
  destruct (Ascii.eqb_spec c ".") as [->|Hd].
  - intros _. now exists ""%string, r.
  - destruct (Ascii.eqb c (ascii_of_nat 10)) eqn:Hn; [discriminate|].
    intros H. destruct (IH H) as (r1 & r2 & -> & Hl).
    exists (String c r1), r2. split; [reflexivity|].
    simpl. now rewrite Hn, Hl.
Qed.

(** X23.  The pattern of [newWatcher] matches a base name exactly when the
    name is some text, a dot, some text without a line break, and [.swp] at
    the very end: [.main.go.swp] and [notes.v2.swp] are ignored, [main.swp]
    and [.swp] are not. *)
Theorem swpPattern_matches (s : string) :
  MatchString swpPattern s = true <->
  exists pre mid,
    s = (pre ++ "." ++ mid ++ ".swp")%string /\ lineText mid = true.
Proof.
  unfold MatchString, swpPattern, Strings.HasSuffix. split.
  - intros H. apply andb_true_iff in H. destruct H as [H Hdot].
    apply andb_true_iff in H. destruct H as [Hlen Heq].
    apply Nat.leb_le in Hlen. apply String.eqb_eq in Heq.
    change (Strings.len ".swp") with 4%nat in *.
    pose proof (split_at (Strings.len s - 4) s ltac:(lia)) as Hs.
    rewrite Heq in Hs.
    destruct (dotOnLine_elim _ Hdot) as (r1 & r2 & Hr & Hl).
    apply (f_equal Strings.rev) in Hr.
    rewrite rev_rev, rev_app, rev_cons in Hr.
    exists (Strings.rev r2), (Strings.rev r1). split.
    + rewrite Hs, Hr. rewrite !sapp_assoc. reflexivity.
    + now rewrite lineText_rev.
  - intros (pre & mid & -> & Hl).
    replace (pre ++ "." ++ mid ++ ".swp")%string
      with ((pre ++ "." ++ mid) ++ ".swp")%string
      by (rewrite !sapp_assoc; reflexivity).
    rewrite slen_app. change (Strings.len ".swp") with 4%nat.
    replace (Strings.len (pre ++ "." ++ mid) + 4 - 4)%nat
      with (Strings.len (pre ++ "." ++ mid)) by lia.
    rewrite drop_app, substring_app.
    apply andb_true_iff. split.
    + apply andb_true_iff. split; [apply Nat.leb_le; lia|reflexivity].
    + rewrite rev_app.
      change ("." ++ mid)%string with (String "." mid).
      rewrite rev_cons, sapp_assoc.
      apply dotOnLine_intro. now rewrite lineText_rev.
Qed.

Lemma swpPattern_matches_witness :
  MatchString swpPattern ".main.go.swp" = true.
Proof.
  apply (proj2 (swpPattern_matches ".main.go.swp")).
  exists ""%string, "main.go"%string. split; reflexivity.
Defined.

(** ** Start-up *)

Lemma AddRecursive_frame (os : OS) (a a' : autotest) (root : string)
  (tree : Node) (e : error) :
  AddRecursive os a root tree = Ret (a', e) ->
  TestFlags a' = TestFlags a /\ SettleTime a' = SettleTime a /\
  forall p, In p (paths a') -> In p (paths a) \/ In p (allDirs root tree).
Proof.
  intros H.
  destruct (AddRecursive_appends_dirs_aux os a a' root tree e H)
    as (added & -> & Hi).
  repeat split. cbn [paths set_paths]. intros p Hp.
  apply in_app_or in Hp. destruct Hp as [Hp|Hp]; [now left|right; auto].
Qed.

Lemma monitorPaths_spec (h : Host) (args : list string) :
  forall w gotOne w' gotOne',
    monitorPaths h w gotOne args = GoesOn (w', gotOne') ->
    TestFlags w' = TestFlags w ++ filter isFlag args /\
    SettleTime w' = SettleTime w /\
    ~ In ""%string args /\
    (gotOne' = true ->
     gotOne = true \/
     exists arg, In arg args /\ isFlag arg = false /\
                 findPackage h arg <> ""%string) /\
    (forall p, In p (paths w') ->
       In p (paths w) \/
       exists arg, In arg args /\ isFlag arg = false /\
         In p (allDirs (findPackage h arg) (treeAt h (findPackage h arg)))).
Proof.
  induction args as [|arg rest IH]; intros w gotOne w' gotOne' H.
  - cbn in H. injection H as <- <-.
    rewrite app_nil_r. repeat split; auto.
  - cbn [monitorPaths] in H. destruct arg as [|c arg]; [discriminate|].
    cbn [filter isFlag].
    destruct (Ascii.eqb c "-") eqn:Hc.
    + destruct (IH _ _ _ _ H) as (H1 & H2 & H3 & H4 & H5).
      cbn [TestFlags set_TestFlags] in H1.
      split; [now rewrite H1, <- app_assoc|].
      split; [exact H2|]. split; [|split].
      * intros [E|E]; [discriminate|auto].
      * intros Hg. destruct (H4 Hg) as [Hg'|(x & Hx1 & Hx2 & Hx3)];
          [now left|right]. exists x. repeat split; auto. now right.
      * intros p Hp. destruct (H5 p Hp) as [Hp'|(x & Hx1 & Hx2 & Hx3)];
          [now left|right]. exists x. repeat split; auto. now right.
    + destruct (negb (String.eqb (findPackage h (String c arg)) "")) eqn:Hf.
      * destruct (AddRecursive (host_os h) w (findPackage h (String c arg))
                    (treeAt h (findPackage h (String c arg))))
          as [[w1 [e|]]|m] eqn:Hadd; [discriminate| |discriminate].
        destruct (AddRecursive_frame _ _ _ _ _ _ Hadd) as (F1 & F2 & F3).
        destruct (IH _ _ _ _ H) as (H1 & H2 & H3 & H4 & H5).
        split; [now rewrite H1, F1|]. split; [now rewrite H2, F2|].
        split; [|split].
        -- intros [E|E]; [discriminate|auto].
        -- intros _. right. exists (String c arg).
           split; [now left|]. split; [exact Hc|].
           apply negb_true_iff in Hf. now apply String.eqb_neq in Hf.
        -- intros p Hp.
           destruct (H5 p Hp) as [Hp'|(x & Hx1 & Hx2 & Hx3)].
           ++ destruct (F3 p Hp') as [Hp''|Hp'']; [now left|right].
              exists (String c arg). split; [now left|]. split; [exact Hc|].
              exact Hp''.
           ++ right. exists x. repeat split; auto. now right.
      * destruct (IH _ _ _ _ H) as (H1 & H2 & H3 & H4 & H5).
        split; [exact H1|]. split; [exact H2|]. split; [|split].
        -- intros [E|E]; [discriminate|auto].
        -- intros Hg. destruct (H4 Hg) as [Hg'|(x & Hx1 & Hx2 & Hx3)];
             [now left|right]. exists x. repeat split; auto. now right.
        -- intros p Hp. destruct (H5 p Hp) as [Hp'|(x & Hx1 & Hx2 & Hx3)];
             [now left|right]. exists x. repeat split; auto. now right.
Qed.


